(** * ImportWorker: the transactional bulk-data import of SQLiteStudio

    A shallow embedding of [coreSQLiteStudio/importworker.cpp].  The worker
    talks to three collaborators that are not part of that file: the import
    plugin (the row source), the database connection and the notification
    sink.  Every call the worker makes to one of them, and every signal it
    emits, is recorded in a trace, so that statements about "what the run
    did" are statements about that trace and about the database it leaves. *)

From Stdlib Require Import String Ascii List ZArith Lia Bool DecimalString.
Import ListNotations.
Local Open Scope list_scope.

(** ** Strings as the code uses them *)

(** [tr] looks a message up in the translation catalogue; the model runs with
    the source (English) texts.  The two-argument form carries a
    disambiguation comment that does not change the text. *)
Definition tr (text : string) : string := text.
Definition tr_ctx (text disambiguation : string) : string := text.

(** The place marker [%1] .. [%9] a character stands for, when it follows a
    percent sign. *)
Definition markerIndex (c : ascii) : option nat :=
  match c with
  | "1"%char => Some 0%nat | "2"%char => Some 1%nat | "3"%char => Some 2%nat
  | "4"%char => Some 3%nat | "5"%char => Some 4%nat | "6"%char => Some 5%nat
  | "7"%char => Some 6%nat | "8"%char => Some 7%nat | "9"%char => Some 8%nat
  | _ => None
  end.

(** [QString::arg]: the templates of this file use the markers [%1] and [%2]
    only, and [arg] is called with as many strings as the template has
    markers, so that marker [%k] is replaced by the k-th string in one pass
    (a marker inside a substituted string is not substituted again). *)
Fixpoint arg (template : string) (args : list string) : string :=
  match template with
  | EmptyString => EmptyString
  | String c rest =>
      match rest with
      | String d rest' =>
          if Ascii.eqb c "%"%char then
            match markerIndex d with
            | Some k =>
                if (k <? length args)%nat
                then (nth k args EmptyString ++ arg rest' args)%string
                else String c (arg rest args)
            | None => String c (arg rest args)
            end
          else String c (arg rest args)
      | EmptyString => String c EmptyString
      end
  end.

(** [QChar::isSpace] on the ASCII range: tab, line feed, vertical tab, form
    feed, carriage return and space. *)
Definition isSpace (c : ascii) : bool :=
  let n := nat_of_ascii c in ((9 <=? n) && (n <=? 13) || (n =? 32))%nat.

Fixpoint dropSpaces (l : list ascii) : list ascii :=
  match l with
  | c :: r => if isSpace c then dropSpaces r else l
  | [] => []
  end.

(** [QString::trimmed]: white space removed from both ends. *)
Definition trimmed (s : string) : string :=
  string_of_list_ascii
    (rev (dropSpaces (rev (dropSpaces (list_ascii_of_string s))))).

(** [QStringList::join]. *)
Definition join (sep : string) (l : list string) : string := String.concat sep l.

(** [QString::number] of an [int]: its decimal notation. *)
Definition QString_number (z : Z) : string := NilZero.string_of_int (Z.to_int z).

(** [QList::mid(pos, length)] for non-negative arguments: at most [length]
    elements starting at [pos]. *)
Definition mid {A : Type} (l : list A) (pos len : nat) : list A :=
  firstn len (skipn pos l).

(** ** Values, configuration and the collaborators' interfaces *)

(** The [QVariant] values a row is made of.  [QVariant(QVariant::String)] is
    the null value of type String: [QVariant_null QV_String]. *)
Inductive QVariantType : Type := QV_Invalid | QV_String | QV_LongLong | QV_ByteArray.

Inductive QVariant : Type :=
| QVariant_null (t : QVariantType)
| QVariant_String (s : string)
| QVariant_LongLong (z : Z)
| QVariant_ByteArray (b : list ascii).

Definition Row : Type := list QVariant.

Inductive Dialect : Type := Sqlite3 | Sqlite2.

(** [Db::Flag]. *)
Inductive Flag : Type := NONE | NO_LOCK | SKIP_DROP_DETECTION | SKIP_PARAM_COUNTING.

(** [ImportManager::StandardImportConfig]: the two options the worker reads. *)
Record StandardImportConfig : Type := mkConfig {
  skipTransaction : bool;
  ignoreErrors : bool
}.

(** What the import plugin answers during one run: the result of
    [beforeImport], the column definitions (name, declared type) and the
    successive results of [next()].  Once [rows] is used up, [next()] returns
    the empty row. *)
Record ImportPlugin : Type := mkPlugin {
  beforeImport : bool;
  getColumns : list (string * string);
  rows : list Row
}.

(** Everything observable a run does, in order. *)
Inductive Event : Type :=
| EvBeforeImport (ok : bool)
| EvGetColumns
| EvBegin (ok : bool)
| EvGetTableColumns (cols : list string)
| EvExec (sql : string) (flags : list Flag) (err : option string)
| EvPrepare (sql : string) (flags : list Flag)
| EvNext (row : Row)
| EvExecute (args : Row) (err : option string)
| EvIsInterrupted (seen : bool)
| EvCommit (ok : bool)
| EvRollback
| EvNotifyError (msg : string)
| EvNotifyWarn (msg : string)
| EvNotifyInfo (msg : string)
| EvAfterImport
| EvCreatedTable (table : string)
| EvFinished (ok : bool).

(** ** The database *)

(** Modelled from the spec: the [Db] class ([db/db.h]) and [SchemaResolver]
    are not among the sources.  Following the destination contract of the
    spec ([listExistingColumns], [execute], [prepare]/[bind]/[execute],
    [begin]/[commit]/[rollback]), the model keeps the one table the run
    writes to: its column names (none when the table does not exist, as a
    table has at least one column) and its rows.  A transaction works on a
    copy that [commit] makes durable and [rollback] drops; without an open
    transaction every statement changes the durable store at once. *)
Record Store : Type := mkStore {
  st_columns : list string;
  st_rows : list Row
}.

Record Db : Type := mkDb {
  durable : Store;
  pending : option Store
}.

Definition view (d : Db) : Store :=
  match pending d with Some s => s | None => durable d end.

Definition update (f : Store -> Store) (d : Db) : Db :=
  match pending d with
  | Some s => mkDb (durable d) (Some (f s))
  | None => mkDb (f (durable d)) None
  end.

(** Whether and why the database refuses an operation is its own business:
    the run is given the error text (if any) of [begin], of the statement
    passed to [exec], of the k-th [execute] of the prepared statement (k is
    counted from 0) with the values bound to it, and of [commit]. *)
Record DbEngine : Type := mkEngine {
  getDialect : Dialect;
  begin_error : option string;
  exec_error : string -> option string;
  execute_error : nat -> Row -> option string;
  commit_error : option string
}.

(** The number of executions of the prepared statement recorded so far. *)
Definition isExecute (e : Event) : bool :=
  match e with EvExecute _ _ => true | _ => false end.

Definition occurrences (p : Event -> bool) (t : list Event) : nat :=
  length (filter p t).

Definition executions (t : list Event) : nat := occurrences isExecute t.

Definition errorText (o : option string) : string :=
  match o with Some e => e | None => EmptyString end.

(** ** The worker's state and its monad *)

(** The members of [ImportWorker] that a run changes, together with the
    database, the number of times the interruption flag has been read, and
    the trace.  The header gives the members their initial values; the lists
    start empty and [tableCreated] starts false. *)
Record State : Type := mkState {
  columnsFromPlugin : list string;
  columnTypesFromPlugin : list string;
  tableColumns : list string;
  targetColumns : list string;
  tableCreated : bool;
  db : Db;
  polls : nat;
  trace : list Event
}.

Definition initial (store : Store) : State :=
  mkState [] [] [] [] false (mkDb store None) 0 [].

Definition M (A : Type) : Type := State -> A * State.

Definition ret {A : Type} (a : A) : M A := fun s => (a, s).

Definition bind {A B : Type} (m : M A) (k : A -> M B) : M B :=
  fun s => let (a, s') := m s in k a s'.

Notation "x <- m ;; k" := (bind m (fun x => k))
  (at level 61, m at next level, right associativity).
Notation "m ;; k" := (bind m (fun _ => k))
  (at level 61, right associativity).

Definition gets {A : Type} (f : State -> A) : M A := fun s => (f s, s).

Definition modify (f : State -> State) : M unit := fun s => (tt, f s).

Definition emit (e : Event) : M unit :=
  modify (fun s =>
    mkState (columnsFromPlugin s) (columnTypesFromPlugin s) (tableColumns s)
            (targetColumns s) (tableCreated s) (db s) (polls s) (trace s ++ [e])).

Definition set_db (d : Db) (s : State) : State :=
  mkState (columnsFromPlugin s) (columnTypesFromPlugin s) (tableColumns s)
          (targetColumns s) (tableCreated s) d (polls s) (trace s).

Definition set_pluginColumns (names types : list string) (s : State) : State :=
  mkState names types (tableColumns s) (targetColumns s) (tableCreated s)
          (db s) (polls s) (trace s).

Definition set_tableColumns (l : list string) (s : State) : State :=
  mkState (columnsFromPlugin s) (columnTypesFromPlugin s) l
          (targetColumns s) (tableCreated s) (db s) (polls s) (trace s).

Definition set_targetColumns (l : list string) (s : State) : State :=
  mkState (columnsFromPlugin s) (columnTypesFromPlugin s) (tableColumns s)
          l (tableCreated s) (db s) (polls s) (trace s).

Definition set_tableCreated (b : bool) (s : State) : State :=
  mkState (columnsFromPlugin s) (columnTypesFromPlugin s) (tableColumns s)
          (targetColumns s) b (db s) (polls s) (trace s).

Definition set_polls (n : nat) (s : State) : State :=
  mkState (columnsFromPlugin s) (columnTypesFromPlugin s) (tableColumns s)
          (targetColumns s) (tableCreated s) (db s) n (trace s).

(** ** The worker *)

Section Worker.

(** Modelled from the spec: [wrapObjIfNeeded] and [wrapObjNamesIfNeeded] are
    declared in [common/utils.h], which is not among the sources.  The first
    (dialect-aware quoting of one identifier, applied only when the
    identifier needs it) is left open; the second applies it to every name of
    a list. *)
Variable wrapObjIfNeeded : string -> Dialect -> string.

Definition wrapObjNamesIfNeeded (names : list string) (dialect : Dialect) : list string :=
  map (fun name => wrapObjIfNeeded name dialect) names.

(** The members set by the constructor, and the schedule of the interruption
    flag.  [interrupt()] runs on another thread and the worker sees the flag
    only through [isInterrupted()], both under the mutex: a schedule is the
    value each successive read returns. *)
Variable plugin : ImportPlugin.
Variable config : StandardImportConfig.
Variable engine : DbEngine.
Variable table : string.
Variable interruptedAt : nat -> bool.

(** *** Calls to the collaborators *)

Definition plugin_beforeImport : M bool :=
  emit (EvBeforeImport (beforeImport plugin)) ;; ret (beforeImport plugin).

Definition plugin_getColumns : M (list (string * string)) :=
  emit EvGetColumns ;; ret (getColumns plugin).

Definition plugin_afterImport : M unit := emit EvAfterImport.

Definition notifyError (msg : string) : M unit := emit (EvNotifyError msg).
Definition notifyWarn (msg : string) : M unit := emit (EvNotifyWarn msg).
Definition notifyInfo (msg : string) : M unit := emit (EvNotifyInfo msg).

Definition emit_finished (ok : bool) : M unit := emit (EvFinished ok).
Definition emit_createdTable : M unit := emit (EvCreatedTable table).

Definition db_begin : M bool :=
  match begin_error engine with
  | None =>
      modify (fun s => set_db (mkDb (durable (db s)) (Some (durable (db s)))) s) ;;
      emit (EvBegin true) ;; ret true
  | Some _ => emit (EvBegin false) ;; ret false
  end.

Definition db_commit : M bool :=
  match commit_error engine with
  | None =>
      modify (fun s => set_db (mkDb (view (db s)) None) s) ;;
      emit (EvCommit true) ;; ret true
  | Some _ => emit (EvCommit false) ;; ret false
  end.

Definition db_rollback : M unit :=
  modify (fun s => set_db (mkDb (durable (db s)) None) s) ;; emit EvRollback.

(** [SchemaResolver::getTableColumns]: the columns of the table as the
    connection sees it, none when there is no such table. *)
Definition resolver_getTableColumns : M (list string) :=
  cols <- gets (fun s => st_columns (view (db s))) ;;
  emit (EvGetTableColumns cols) ;; ret cols.

(** The model does not parse SQL: a statement is passed with the text the
    code builds and with what that text does to the store when it succeeds. *)
Definition createTable (columns : list string) (st : Store) : Store :=
  mkStore columns [].

Definition insertRow (args : Row) (st : Store) : Store :=
  mkStore (st_columns st) (st_rows st ++ [args]).

Definition db_exec (sql : string) (flags : list Flag) (effect : Store -> Store)
  : M (option string) :=
  let err := exec_error engine sql in
  match err with
  | None => modify (fun s => set_db (update effect (db s)) s)
  | Some _ => ret tt
  end ;;
  emit (EvExec sql flags err) ;; ret err.

Definition db_prepare (sql : string) (flags : list Flag) : M unit :=
  emit (EvPrepare sql flags).

(** [query->setArgs(args)] followed by [query->execute()]; the result is the
    error text when the execution failed.  The engine is asked about the
    k-th execution, k being the number of executions before this one. *)
Definition query_execute (args : Row) : M (option string) :=
  k <- gets (fun s => executions (trace s)) ;;
  let err := execute_error engine k args in
  match err with
  | None => modify (fun s => set_db (update (insertRow args) (db s)) s)
  | Some _ => ret tt
  end ;;
  emit (EvExecute args err) ;; ret err.

Definition isInterrupted : M bool :=
  n <- gets polls ;;
  modify (set_polls (S n)) ;;
  emit (EvIsInterrupted (interruptedAt n)) ;; ret (interruptedAt n).

(** *** importworker.cpp *)

Definition readPluginColumns : M unit :=
  pluginColumnDefinitions <- plugin_getColumns ;;
  modify (fun s =>
    fold_left
      (fun s colDef =>
         set_pluginColumns (columnsFromPlugin s ++ [fst colDef])
                           (columnTypesFromPlugin s ++ [snd colDef]) s)
      pluginColumnDefinitions s).

Definition error (err : string) : M unit :=
  notifyError err ;; plugin_afterImport ;; emit_finished false.

Definition ddl : string := "CREATE TABLE %1 (%2)".
Definition insertTemplate : string := "INSERT INTO %1 VALUES (%2)".

Definition lessColumnsWarning : string :=
  arg (tr "Table '%1' has less columns than there are columns in the data to be imported. Excessive data columns will be ignored.") [table].

Definition moreColumnsInfo : string :=
  arg (tr "Table '%1' has more columns than there are columns in the data to be imported. Some columns in the table will be left empty.") [table].

Definition interruptedError : string :=
  arg (tr "Error while importing data: %1") [tr_ctx "Interrupted." "import process status update"].

(** The column definitions of the CREATE TABLE statement: the loop over
    [i < columnsFromPlugin.size()] that reads both member lists at [i]. *)
Definition colDefs (names types : list string) (dialect : Dialect) : list string :=
  map (fun i => trimmed (wrapObjIfNeeded (nth i names EmptyString) dialect
                         ++ " " ++ nth i types EmptyString)%string)
      (seq 0 (length names)).

(** [prepareTable].  The branches yield [finalColumns], or nothing where the
    code has returned false already. *)
Definition prepareTable : M bool :=
  let dialect := getDialect engine in
  cols <- resolver_getTableColumns ;;
  modify (set_tableColumns cols) ;;
  tableColumns <- gets tableColumns ;;
  columnsFromPlugin <- gets columnsFromPlugin ;;
  columnTypesFromPlugin <- gets columnTypesFromPlugin ;;
  finalColumns <-
    (if (0 <? length tableColumns)%nat then
       if (length tableColumns <? length columnsFromPlugin)%nat then
         notifyWarn lessColumnsWarning ;;
         ret (Some tableColumns)
       else if (length columnsFromPlugin <? length tableColumns)%nat then
         notifyInfo moreColumnsInfo ;;
         ret (Some (mid tableColumns 0 (length columnsFromPlugin)))
       else
         ret (Some tableColumns)
     else
       let flags := if skipTransaction config then [NO_LOCK] else [NONE] in
       result <- db_exec (arg ddl [wrapObjIfNeeded table dialect;
                                   join ", " (colDefs columnsFromPlugin columnTypesFromPlugin dialect)])
                         flags (createTable columnsFromPlugin) ;;
       match result with
       | Some errText =>
           error (arg (tr "Could not create table to import to: %1") [errText]) ;;
           ret None
       | None =>
           modify (set_tableCreated true) ;;
           ret (Some columnsFromPlugin)
       end) ;;
  match finalColumns with
  | None => ret false
  | Some finalColumns =>
      interrupted <- isInterrupted ;;
      if interrupted then
        error interruptedError ;; ret false
      else
        modify (set_targetColumns (wrapObjNamesIfNeeded finalColumns dialect)) ;;
        ret true
  end.

Definition rowWarning (rowNumber : Z) (errText : string) : string :=
  arg (tr "Could not import data row number %1. The row was ignored. Problem details: %2")
      [QString_number rowNumber; errText].

Definition rowError (errText : string) : string :=
  arg (tr "Error while importing data: %1") [errText].

Arguments arg : simpl never.
Arguments lessColumnsWarning : simpl never.
Arguments moreColumnsInfo : simpl never.
Arguments interruptedError : simpl never.
Arguments rowWarning : simpl never.
Arguments rowError : simpl never.

(** The texts are compared as they are written, not by running [arg]. *)
Opaque arg.

(** The values bound for one row: missing values filled up with null
    strings, then the first [colCount] ones. *)
Definition fillUp (row : Row) (colCount : nat) : Row :=
  row ++ repeat (QVariant_null QV_String) (colCount - length row).

Definition boundArgs (row : Row) (colCount : nat) : Row :=
  mid (fillUp row colCount) 0 colCount.

(** The body of the [while] loop of [importData], after the row has been
    read: true when the body reaches [rowCnt++], false when it has returned
    false.  The message written with [qDebug] every 1000 rows and the timer
    are not observable and left out. *)
Definition importRow (colCount : nat) (rowCnt : Z) (row : Row) : M bool :=
  result <- query_execute (boundArgs row colCount) ;;
  failed <-
    match result with
    | Some errText =>
        if ignoreErrors config then
          notifyWarn (rowWarning (rowCnt + 1) errText) ;; ret false
        else
          error (rowError errText) ;; ret true
    | None => ret false
    end ;;
  if failed then ret false
  else
    interrupted <- (if (Z.rem rowCnt 100 =? 0)%Z then isInterrupted else ret false) ;;
    if interrupted then
      error interruptedError ;; ret false
    else ret true.

(** The [while] loop itself, on what [plugin->next()] has still to return.
    [rowCnt] is an [int]; the model does not bound it (the behaviour of the
    code is undefined past 2^31 - 1 rows). *)
Fixpoint importRows (colCount : nat) (rowCnt : Z) (stream : list Row) : M bool :=
  match stream with
  | [] => emit (EvNext []) ;; ret true
  | row :: rest =>
      emit (EvNext row) ;;
      if (0 <? length row)%nat then
        continue <- importRow colCount rowCnt row ;;
        if continue then importRows colCount (rowCnt + 1)%Z rest
        else ret false
      else ret true
  end.

Definition importData : M bool :=
  colCount <- gets (fun s => length (targetColumns s)) ;;
  let valList := repeat "?"%string colCount in
  let theInsert := arg insertTemplate [wrapObjIfNeeded table (getDialect engine);
                                       join ", " valList] in
  db_prepare theInsert [SKIP_DROP_DETECTION; SKIP_PARAM_COUNTING; NO_LOCK] ;;
  importRows colCount 0 (rows plugin).

Definition run : M unit :=
  ready <- plugin_beforeImport ;;
  if negb ready then
    emit_finished false
  else
    readPluginColumns ;;
    nColumns <- gets (fun s => length (columnsFromPlugin s)) ;;
    if (nColumns =? 0)%nat then
      error (tr "No columns provided by the import plugin.")
    else
      began <- (if negb (skipTransaction config) then db_begin else ret true) ;;
      if negb began then
        error (arg (tr "Could not start transaction in order to import a data: %1")
                   [errorText (begin_error engine)])
      else
        prepared <- prepareTable ;;
        if negb prepared then
          (if negb (skipTransaction config) then db_rollback else ret tt)
        else
          imported <- importData ;;
          if negb imported then
            (if negb (skipTransaction config) then db_rollback else ret tt)
          else
            committed <- (if negb (skipTransaction config) then db_commit else ret true) ;;
            if negb committed then
              error (arg (tr "Could not commit transaction for imported data: %1")
                         [errorText (commit_error engine)]) ;;
              (if negb (skipTransaction config) then db_rollback else ret tt)
            else
              created <- gets tableCreated ;;
              (if created then emit_createdTable else ret tt) ;;
              plugin_afterImport ;;
              emit_finished true.

(** The state a run leaves, started on a store with no transaction open. *)
Definition runFrom (store : Store) : State := snd (run (initial store)).


(** ** Reading a trace *)

Definition isFinished (e : Event) : bool :=
  match e with EvFinished _ => true | _ => false end.

Definition isAfterImport (e : Event) : bool :=
  match e with EvAfterImport => true | _ => false end.

Definition isRollback (e : Event) : bool :=
  match e with EvRollback => true | _ => false end.

Definition isPoll (e : Event) : bool :=
  match e with EvIsInterrupted _ => true | _ => false end.

(** The outcome signalled by the run: the argument of the last [finished]. *)
Definition signal (o : option bool) (e : Event) : option bool :=
  match e with EvFinished ok => Some ok | _ => o end.

Definition outcome (t : list Event) : option bool := fold_left signal t None.

Lemma occurrences_app p (a b : list Event) :
  occurrences p (a ++ b) = (occurrences p a + occurrences p b)%nat.
Proof. unfold occurrences. now rewrite filter_app, length_app. Qed.

Lemma occurrences_cons p e (t : list Event) :
  occurrences p (e :: t) = ((if p e then 1 else 0) + occurrences p t)%nat.
Proof. unfold occurrences. cbn. now destruct (p e). Qed.

Lemma executions_app (a b : list Event) :
  executions (a ++ b) = (executions a + executions b)%nat.
Proof. apply occurrences_app. Qed.


(** ** Stepping through the code *)

(** Symbolic execution: [exec] unfolds the monad, the calls and the record
    projections; [branch_run] splits on whatever the next branch of the code
    depends on, innermost first. *)
Ltac exec :=
  cbv beta iota zeta delta
    [run runFrom prepareTable importData importRow
     error notifyError notifyWarn notifyInfo
     plugin_afterImport emit_finished emit_createdTable plugin_beforeImport
     plugin_getColumns db_begin db_commit db_rollback db_prepare db_exec
     query_execute resolver_getTableColumns isInterrupted emit modify gets bind ret
     set_db set_pluginColumns set_tableColumns set_targetColumns
     set_tableCreated set_polls initial
     columnsFromPlugin columnTypesFromPlugin tableColumns targetColumns
     tableCreated db polls trace negb
     view update durable pending createTable st_columns st_rows] in *;
  cbn [app] in *.

Lemma readPluginColumns_fold (defs : list (string * string)) (s : State) :
  fold_left
    (fun s colDef =>
       set_pluginColumns (columnsFromPlugin s ++ [fst colDef])
                         (columnTypesFromPlugin s ++ [snd colDef]) s)
    defs s
  = set_pluginColumns (columnsFromPlugin s ++ map fst defs)
                      (columnTypesFromPlugin s ++ map snd defs) s.
Proof.
  revert s. induction defs as [|d defs IH]; intros s; cbn.
  - destruct s; cbn. now rewrite !app_nil_r.
  - rewrite IH. cbn. now rewrite <- !app_assoc.
Qed.

Lemma readPluginColumns_eq (s : State) :
  readPluginColumns s
  = (tt, mkState (columnsFromPlugin s ++ map fst (getColumns plugin))
                 (columnTypesFromPlugin s ++ map snd (getColumns plugin))
                 (tableColumns s) (targetColumns s) (tableCreated s)
                 (db s) (polls s) (trace s ++ [EvGetColumns])).
Proof.
  unfold readPluginColumns, plugin_getColumns, bind, emit, modify, ret.
  rewrite readPluginColumns_fold. reflexivity.
Qed.

Ltac branch_with on_loop :=
  let E := fresh "E" in
  match goal with
  | |- context [readPluginColumns ?s] => rewrite (readPluginColumns_eq s)
  | |- context [match importRows ?c ?r ?st ?s with _ => _ end] => on_loop c r st s
  | |- context [match ?x with _ => _ end] =>
      lazymatch x with
      | context [match _ with _ => _ end] => fail
      | fold_left _ _ _ => fail
      | outcome _ => fail
      | existsb _ _ => fail
      | _ => destruct x eqn:E; try rewrite E in *
      end
  end.

Ltac branch_run := branch_with ltac:(fun c r st s => fail).

(** *** How a piece of code extends the state *)

Definition inserted (t : list Event) : list Row :=
  flat_map (fun e => match e with EvExecute args None => [args] | _ => [] end) t.

Definition applyRows (l : list Row) (d : Db) : Db :=
  fold_left (fun d args => update (insertRow args) d) l d.

(** [Extends s s' evs]: from [s] to [s'] the members of the worker are
    untouched, the trace grows by [evs], the flag has been read once per
    poll in [evs] and the database has taken the rows whose execution
    succeeded in [evs]. *)
Definition Extends (s s' : State) (evs : list Event) : Prop :=
  columnsFromPlugin s' = columnsFromPlugin s /\
  columnTypesFromPlugin s' = columnTypesFromPlugin s /\
  tableColumns s' = tableColumns s /\
  targetColumns s' = targetColumns s /\
  tableCreated s' = tableCreated s /\
  trace s' = trace s ++ evs /\
  polls s' = (polls s + occurrences isPoll evs)%nat /\
  db s' = applyRows (inserted evs) (db s).

Lemma inserted_app (a b : list Event) : inserted (a ++ b) = inserted a ++ inserted b.
Proof. unfold inserted. now rewrite flat_map_app. Qed.

Lemma applyRows_app (a b : list Row) (d : Db) :
  applyRows (a ++ b) d = applyRows b (applyRows a d).
Proof. unfold applyRows. now rewrite fold_left_app. Qed.

Lemma Extends_trans s s1 s2 e1 e2 :
  Extends s s1 e1 -> Extends s1 s2 e2 -> Extends s s2 (e1 ++ e2).
Proof.
  unfold Extends. intros (A1 & A2 & A3 & A4 & A5 & A6 & A7 & A8)
                         (B1 & B2 & B3 & B4 & B5 & B6 & B7 & B8).
  rewrite B1, B2, B3, B4, B5, B6, B7, B8, A1, A2, A3, A4, A5, A6, A7, A8.
  rewrite occurrences_app, inserted_app, applyRows_app, app_assoc.
  repeat split; lia.
Qed.

(** A property of every event of a trace together with what follows it. *)
Fixpoint Suffixes (P : Event -> list Event -> Prop) (t : list Event) : Prop :=
  match t with
  | [] => True
  | e :: rest => P e rest /\ Suffixes P rest
  end.

Lemma Suffixes_spec P t :
  Suffixes P t <-> forall pre e post, t = pre ++ e :: post -> P e post.
Proof.
  induction t as [|x t IH]; cbn.
  - split; auto. intros _ [|? ?] ? ? H; discriminate H.
  - rewrite IH. split.
    + intros [Hx Ht] [|y pre] e post H; injection H as -> ->; eauto.
    + intros H. split.
      * apply (H [] x t eq_refl).
      * intros pre e post ->. apply (H (x :: pre) e post eq_refl).
Qed.

Lemma Suffixes_mono (P Q : Event -> list Event -> Prop) t :
  (forall e post, P e post -> Q e post) -> Suffixes P t -> Suffixes Q t.
Proof. intros PQ. induction t; cbn; intuition. Qed.

Lemma Suffixes_app (P Q : Event -> list Event -> Prop) a b :
  Suffixes P a -> (forall e post, P e post -> Q e (post ++ b)) ->
  Suffixes Q b -> Suffixes Q (a ++ b).
Proof. intros Ha PQ Hb. induction a; cbn in *; intuition. Qed.

(** The events the insertion loop can produce. *)
Definition loopEvent (e : Event) : bool :=
  match e with
  | EvNext _ | EvExecute _ _ | EvIsInterrupted _ | EvNotifyWarn _
  | EvNotifyError _ | EvAfterImport | EvFinished false => true
  | _ => false
  end.

(** The events that end the insertion loop, with what the loop still does
    after each: a failed execution when errors are not ignored, the flag
    seen set, and the empty row. *)
Definition stops (e : Event) : option (list Event) :=
  match e with
  | EvExecute _ (Some errText) =>
      if ignoreErrors config then None
      else Some [EvNotifyError (rowError errText); EvAfterImport; EvFinished false]
  | EvIsInterrupted true =>
      Some [EvNotifyError interruptedError; EvAfterImport; EvFinished false]
  | EvNext [] => Some []
  | _ => None
  end.

(** The failures that end a run once the table is being prepared: a
    statement given to [exec] that fails, an execution that fails when
    errors are not ignored, the flag seen set, and a commit that fails. *)
Definition fatal (e : Event) : bool :=
  match e with
  | EvExec _ _ (Some _) => true
  | EvExecute _ (Some _) => negb (ignoreErrors config)
  | EvIsInterrupted true => true
  | EvCommit false => true
  | _ => false
  end.

Definition isEnd (e : Event) : bool :=
  match e with EvNext [] => true | _ => false end.

Definition LoopStop (ok : bool) (e : Event) (post : list Event) : Prop :=
  match stops e with
  | Some tail => post = tail /\ ok = isEnd e
  | None => True
  end.

(** Every execution binds [colCount] values. *)
Definition bindsExactly (colCount : nat) (e : Event) : bool :=
  match e with
  | EvExecute args _ => (length args =? colCount)%nat
  | _ => true
  end.

Lemma length_boundArgs (row : Row) (colCount : nat) :
  length (boundArgs row colCount) = colCount.
Proof.
  unfold boundArgs, mid, fillUp. cbn [skipn].
  rewrite length_firstn, length_app, repeat_length. lia.
Qed.

Ltac extends_now :=
  eexists; split;
  [ unfold Extends; cbn;
    repeat match goal with
           | |- _ /\ _ => split
           | |- _ ++ _ = _ ++ _ => rewrite <- ?app_assoc; reflexivity
           | |- _ => first [ reflexivity | cbn; lia | cbn; reflexivity ]
           end
  | ].

(** *** Where the interruption flag is read *)

(** For every read of the flag in a trace, the number of executions before
    it; [x] executions precede the trace. *)
Fixpoint pollPositions (x : nat) (t : list Event) : list nat :=
  match t with
  | [] => []
  | e :: rest =>
      if isPoll e then x :: pollPositions x rest
      else if isExecute e then pollPositions (S x) rest
      else pollPositions x rest
  end.

(** No more than 100 executions without a read of the flag, [c] executions
    having passed since the last read when the trace starts. *)
Fixpoint quiet (c : nat) (t : list Event) : bool :=
  match t with
  | [] => true
  | e :: rest =>
      if isPoll e then quiet 0 rest
      else if isExecute e then (S c <=? 100)%nat && quiet (S c) rest
      else quiet c rest
  end.

Definition isRowRead (e : Event) : bool :=
  match e with EvNext (_ :: _) => true | _ => false end.

(** Every execution is that of a row read and not yet executed, and the flag
    is read only when no row read waits for its execution; [d] rows wait
    when the trace starts. *)
Fixpoint inStep (d : nat) (t : list Event) : bool :=
  match t with
  | [] => true
  | e :: rest =>
      if isRowRead e then inStep (S d) rest
      else if isExecute e then match d with 0 => false | S d' => inStep d' rest end
      else if isPoll e then (d =? 0)%nat && inStep d rest
      else inStep d rest
  end.

(** The k-th read of the flag (k counted from 0) comes after this many
    executions. *)
Definition pollPosition (k : nat) : nat :=
  match k with 0 => 0 | S j => 100 * j + 1 end%nat.

Definition pollIndex (n : nat) : nat := S ((n + 99) / 100).

Definition gap (n : nat) : nat :=
  match n with 0 => 0 | S m => m mod 100 end%nat.

Lemma rem_100_nat (n : nat) :
  (Z.rem (Z.of_nat n) 100 =? 0)%Z = (n mod 100 =? 0)%nat.
Proof.
  rewrite Z.rem_mod_nonneg by lia.
  change 100%Z with (Z.of_nat 100). rewrite <- Nat2Z.inj_mod.
  destruct (Nat.eqb_spec (n mod 100) 0) as [H|H].
  - apply Z.eqb_eq. lia.
  - apply Z.eqb_neq. lia.
Qed.

Lemma poll_step_polled (n : nat) :
  (n mod 100 = 0)%nat ->
  pollPosition (pollIndex n) = S n /\ pollIndex (S n) = S (pollIndex n) /\
  gap (S n) = 0%nat.
Proof.
  intros H. unfold pollPosition, pollIndex, gap.
  pose proof (Nat.div_mod_eq n 100).
  pose proof (Nat.div_mod_eq (n + 99) 100).
  pose proof (Nat.div_mod_eq (S n + 99) 100).
  pose proof (Nat.mod_upper_bound (n + 99) 100).
  pose proof (Nat.mod_upper_bound (S n + 99) 100).
  lia.
Qed.

Lemma poll_step_quiet (n : nat) :
  (n mod 100 <> 0)%nat ->
  pollIndex (S n) = pollIndex n /\ gap (S n) = S (gap n).
Proof.
  intros H. unfold pollIndex, gap. destruct n as [|m]; [cbn in H; lia|].
  pose proof (Nat.div_mod_eq (S m) 100).
  pose proof (Nat.div_mod_eq m 100).
  pose proof (Nat.div_mod_eq (S m + 99) 100).
  pose proof (Nat.div_mod_eq (S (S m) + 99) 100).
  pose proof (Nat.mod_upper_bound (S m) 100).
  pose proof (Nat.mod_upper_bound m 100).
  pose proof (Nat.mod_upper_bound (S m + 99) 100).
  pose proof (Nat.mod_upper_bound (S (S m) + 99) 100).
  lia.
Qed.

Lemma gap_bound (n : nat) : (gap n < 100)%nat.
Proof. destruct n; cbn -[Nat.modulo]; [lia|]. apply Nat.mod_upper_bound. lia. Qed.

(** What one pass through the loop body does to the two readings above;
    [polled] tells whether the pass has read the flag. *)
Definition RowPolls (rowCnt : Z) (go : bool) (evs : list Event) : Prop :=
  exists polled : bool,
    (polled = true -> (Z.rem rowCnt 100 =? 0)%Z = true) /\
    (go = true -> polled = (Z.rem rowCnt 100 =? 0)%Z) /\
    (forall x tail,
       pollPositions x (evs ++ tail)
       = (if polled then [S x] else []) ++ pollPositions (S x) tail) /\
    (forall c tail,
       quiet c (evs ++ tail)
       = (S c <=? 100)%nat && quiet (if polled then 0%nat else S c) tail) /\
    (forall tail, inStep 1 (evs ++ tail) = inStep 0 tail) /\
    occurrences isPoll evs = (if polled then 1 else 0)%nat /\
    executions evs = 1%nat.

(** The same for the loop, entered with [rowCnt] rows processed and as many
    executions made. *)
Definition LoopPolls (rowCnt : Z) (evs : list Event) : Prop :=
  forall n : nat, rowCnt = Z.of_nat n ->
    (forall tail,
       pollPositions n (evs ++ tail)
       = map pollPosition (seq (pollIndex n) (occurrences isPoll evs))
         ++ pollPositions (n + executions evs) tail) /\
    (forall tail, (forall k, quiet k tail = true) ->
       quiet (gap n) (evs ++ tail) = true) /\
    (forall tail, inStep 0 (evs ++ tail) = inStep 0 tail).

(** After a row that is not empty has been read, the statement is executed
    with the values bound for that row. *)
Definition NextBound (colCount : nat) (e : Event) (post : list Event) : Prop :=
  match e with
  | EvNext (v :: row) =>
      exists err post', post = EvExecute (boundArgs (v :: row) colCount) err :: post'
  | _ => True
  end.

(** *** What the loop does when errors are ignored and nobody interrupts *)

Definition warnings (t : list Event) : list string :=
  flat_map (fun e => match e with EvNotifyWarn msg => [msg] | _ => [] end) t.

(** Of the values bound for the successive rows, [i] executions having been
    made before: those the engine accepts, and the positions and error texts
    of those it refuses. *)
Fixpoint acceptedFrom (i : nat) (attempts : list Row) : list Row :=
  match attempts with
  | [] => []
  | args :: rest =>
      match execute_error engine i args with
      | None => args :: acceptedFrom (S i) rest
      | Some _ => acceptedFrom (S i) rest
      end
  end.

Fixpoint failuresFrom (i : nat) (attempts : list Row) : list (nat * string) :=
  match attempts with
  | [] => []
  | args :: rest =>
      match execute_error engine i args with
      | None => failuresFrom (S i) rest
      | Some errText => (i, errText) :: failuresFrom (S i) rest
      end
  end.

(** The warning for the failure at position [i], counted from 0. *)
Definition failureWarning (failure : nat * string) : string :=
  rowWarning (Z.of_nat (fst failure) + 1) (snd failure).

Definition RowResult (colCount : nat) (rowCnt : Z) (x : nat) (row : Row)
           (go : bool) (evs : list Event) : Prop :=
  ignoreErrors config = true -> (forall k, interruptedAt k = false) ->
  go = true /\
  inserted evs = match execute_error engine x (boundArgs row colCount) with
                 | None => [boundArgs row colCount]
                 | Some _ => []
                 end /\
  warnings evs = match execute_error engine x (boundArgs row colCount) with
                 | None => []
                 | Some errText => [rowWarning (rowCnt + 1) errText]
                 end.

Definition LoopResult (colCount : nat) (rowCnt : Z) (x : nat) (stream : list Row)
           (ok : bool) (evs : list Event) : Prop :=
  ignoreErrors config = true -> (forall k, interruptedAt k = false) ->
  Forall (fun row => row <> []) stream -> rowCnt = Z.of_nat x ->
  ok = true /\
  inserted evs = acceptedFrom x (map (fun row => boundArgs row colCount) stream) /\
  warnings evs = map failureWarning
                     (failuresFrom x (map (fun row => boundArgs row colCount) stream)) /\
  executions evs = length stream.

Lemma warnings_app (a b : list Event) : warnings (a ++ b) = warnings a ++ warnings b.
Proof. unfold warnings. now rewrite flat_map_app. Qed.

Lemma LoopResult_end colCount rowCnt x : LoopResult colCount rowCnt x [] true [EvNext []].
Proof. intros _ _ _ _. repeat split. Qed.

Lemma LoopResult_empty colCount rowCnt x rest ok evs :
  LoopResult colCount rowCnt x ([] :: rest) ok evs.
Proof. intros _ _ H _. inversion H; congruence. Qed.

Lemma LoopResult_abort colCount rowCnt x row rest ev1 :
  RowResult colCount rowCnt x row false ev1 ->
  LoopResult colCount rowCnt x (row :: rest) false ([EvNext row] ++ ev1).
Proof. intros R Hig Hint _ _. destruct (R Hig Hint) as [H _]. discriminate H. Qed.

Lemma LoopResult_step colCount rowCnt x row rest ev1 ev2 ok :
  RowResult colCount rowCnt x row true ev1 -> executions ev1 = 1%nat ->
  LoopResult colCount (rowCnt + 1) (S x) rest ok ev2 ->
  LoopResult colCount rowCnt x (row :: rest) ok ([EvNext row] ++ ev1 ++ ev2).
Proof.
  intros R1 X1 R2 Hig Hint Hrows ->.
  destruct (R1 Hig Hint) as (_ & I1 & W1).
  inversion Hrows as [|? ? _ Hrest]; subst.
  destruct (R2 Hig Hint Hrest) as (-> & I2 & W2 & X2); [lia|].
  unfold executions in *.
  rewrite !inserted_app, !warnings_app, !occurrences_app, I1, I2, W1, W2, X1, X2.
  cbn [map acceptedFrom failuresFrom inserted warnings flat_map app
       occurrences filter isExecute length Nat.add].
  destruct (execute_error engine x (boundArgs row colCount)); cbn [map app];
    repeat match goal with
           | |- context [failureWarning (?i, ?e)] =>
               change (failureWarning (i, e)) with (rowWarning (Z.of_nat i + 1) e)
           end;
    repeat split.
Qed.

Definition RowFacts (colCount : nat) (rowCnt : Z) (x : nat) (row : Row)
           (go : bool) (evs : list Event) : Prop :=
  RowResult colCount rowCnt x row go evs /\
  RowPolls rowCnt go evs /\
  (exists err rest, evs = EvExecute (boundArgs row colCount) err :: rest) /\
  Suffixes (NextBound colCount) evs /\
  forallb loopEvent evs = true /\
  occurrences isFinished evs = (if go then 0 else 1)%nat /\
  occurrences isAfterImport evs = (if go then 0 else 1)%nat /\
  forallb (bindsExactly colCount) evs = true /\
  (forall o, fold_left signal evs o = if go then o else Some false) /\
  existsb fatal evs = negb go /\
  Suffixes (fun e post =>
              match stops e with
              | Some tail => go = false /\ post = tail /\ isEnd e = false
              | None => True
              end) evs.

Definition LoopFacts (colCount : nat) (rowCnt : Z) (x : nat) (stream : list Row)
           (ok : bool) (evs : list Event) : Prop :=
  LoopResult colCount rowCnt x stream ok evs /\
  LoopPolls rowCnt evs /\
  Suffixes (NextBound colCount) evs /\
  forallb loopEvent evs = true /\
  occurrences isFinished evs = (if ok then 0 else 1)%nat /\
  occurrences isAfterImport evs = (if ok then 0 else 1)%nat /\
  forallb (bindsExactly colCount) evs = true /\
  (forall o, fold_left signal evs o = if ok then o else Some false) /\
  existsb fatal evs = negb ok /\
  Suffixes (LoopStop ok) evs.

Lemma LoopPolls_end (rowCnt : Z) : LoopPolls rowCnt [EvNext []].
Proof.
  intros n _. split; [|split].
  - intros tail. cbn. now rewrite Nat.add_0_r.
  - intros tail Htail. cbn. apply Htail.
  - intros tail. reflexivity.
Qed.

Lemma LoopPolls_abort (rowCnt : Z) (row : Row) (ev1 : list Event) :
  row <> [] ->
  RowPolls rowCnt false ev1 -> LoopPolls rowCnt ([EvNext row] ++ ev1).
Proof.
  intros Hrow (polled & P1 & _ & PP & Q & I1 & C & X) n ->. split; [|split].
  3: { intros tail. rewrite <- app_assoc. destruct row; [congruence|].
       cbn [app inStep isRowRead]. apply I1. }
  - intros tail. rewrite <- app_assoc. cbn [app pollPositions isPoll isExecute].
    unfold executions in *. rewrite PP, !occurrences_cons, C, X.
    cbn [isExecute isPoll Nat.add].
    replace (n + 1)%nat with (S n) by lia.
    destruct polled; cbn [seq map app]; [|reflexivity].
    rewrite rem_100_nat in P1. specialize (P1 eq_refl).
    apply Nat.eqb_eq in P1.
    now rewrite (proj1 (poll_step_polled n P1)).
  - intros tail Htail. rewrite <- app_assoc. cbn [app quiet isPoll isExecute].
    rewrite Q, Htail. pose proof (gap_bound n).
    apply andb_true_intro. split; [apply Nat.leb_le; lia|reflexivity].
Qed.

Lemma LoopPolls_step (rowCnt : Z) (row : Row) (ev1 ev2 : list Event) :
  row <> [] ->
  RowPolls rowCnt true ev1 -> LoopPolls (rowCnt + 1) ev2 ->
  LoopPolls rowCnt ([EvNext row] ++ ev1 ++ ev2).
Proof.
  intros Hrow (polled & _ & P2 & PP & Q & I1 & C & X) H2 n ->.
  specialize (P2 eq_refl). rewrite rem_100_nat in P2.
  destruct (H2 (S n)) as (PP2 & Q2 & I2); [lia|].
  pose proof (gap_bound n) as Hgap.
  split; [|split].
  3: { intros tail. rewrite <- !app_assoc. destruct row; [congruence|].
       cbn [app inStep isRowRead]. now rewrite I1, I2. }
  - intros tail. rewrite <- !app_assoc. cbn [app pollPositions isPoll isExecute].
    unfold executions in *.
    rewrite PP, PP2, !occurrences_cons, !occurrences_app, C, X.
    cbn [isExecute isPoll Nat.add].
    replace (n + S (occurrences isExecute ev2))%nat
      with (S n + occurrences isExecute ev2)%nat by lia.
    rewrite app_assoc. f_equal.
    destruct polled.
    + symmetry in P2. apply Nat.eqb_eq in P2.
      destruct (poll_step_polled n P2) as (Hp & Hi & _).
      cbn [seq map app Nat.add]. now rewrite Hp, Hi.
    + symmetry in P2. apply Nat.eqb_neq in P2.
      destruct (poll_step_quiet n P2) as (Hi & _).
      cbn [app Nat.add]. now rewrite Hi.
  - intros tail Htail. rewrite <- !app_assoc. cbn [app quiet isPoll isExecute].
    rewrite Q. apply andb_true_intro. split; [apply Nat.leb_le; lia|].
    specialize (Q2 tail Htail).
    destruct polled.
    + symmetry in P2. apply Nat.eqb_eq in P2.
      destruct (poll_step_polled n P2) as (_ & _ & Hg). now rewrite Hg in Q2.
    + symmetry in P2. apply Nat.eqb_neq in P2.
      destruct (poll_step_quiet n P2) as (_ & Hg). now rewrite Hg in Q2.
Qed.

Lemma importRow_extends colCount rowCnt row s go s' :
  importRow colCount rowCnt row s = (go, s') ->
  exists evs, Extends s s' evs /\
             RowFacts colCount rowCnt (executions (trace s)) row go evs.
Proof.
  destruct s. exec. repeat (branch_run; exec).
  all: intros H; injection H as <- <-.
  all: extends_now; unfold RowFacts; split;
    [ unfold RowResult; cbn [trace]; intros Hig Hint;
      repeat match goal with
             | H : ignoreErrors config = false |- _ => rewrite H in Hig; discriminate Hig
             | H : interruptedAt _ = true |- _ => rewrite Hint in H; discriminate H
             | H : execute_error _ _ _ = _ |- _ => rewrite H; clear H
             end;
      repeat split | ];
    split;
    [ unfold RowPolls;
      first [ exists true; repeat split; intros; cbn; congruence
            | exists false; repeat split; intros; cbn; congruence ]
    | cbn; rewrite ?length_boundArgs, ?Nat.eqb_refl;
      repeat match goal with H : ignoreErrors config = _ |- _ => rewrite H; clear H end;
      cbn; intuition eauto ].
Qed.

Lemma importRows_extends colCount stream : forall rowCnt s ok s',
  importRows colCount rowCnt stream s = (ok, s') ->
  exists evs, Extends s s' evs /\
             LoopFacts colCount rowCnt (executions (trace s)) stream ok evs.
Proof.
  induction stream as [|row rest IH]; intros rowCnt s ok s' H; cbn [importRows] in H.
  - injection H as <- <-. extends_now.
    split; [apply LoopResult_end|].
    split; [apply LoopPolls_end|]. unfold LoopStop; cbn; intuition.
  - unfold bind at 1 in H. unfold emit at 1, modify in H.
    destruct (0 <? length row)%nat eqn:Hrow0.
    + unfold bind at 1 in H.
      destruct (importRow _ _ _ _) as [go s1] eqn:Hrow.
      apply importRow_extends in Hrow
        as (ev1 & E1 & R1 & P1 & (err1 & rest1 & N1) & M1 & L1 & F1 & A1 & B1 & O1 & X1 & S1).
      cbn [trace] in R1. rewrite executions_app in R1.
      change (executions [EvNext row]) with 0%nat in R1. rewrite Nat.add_0_r in R1.
      assert (Hnext : stops (EvNext row) = None) by (destruct row; [discriminate|reflexivity]).
      assert (Hrow1 : row <> []) by (destruct row; [discriminate|congruence]).
      assert (Hx1 : executions ev1 = 1%nat) by (destruct P1 as (? & ? & ? & ? & ? & ? & ? & ?); assumption).
      destruct go.
      * apply IH in H as (ev2 & E2 & R2 & P2 & M2 & L2 & F2 & A2 & B2 & O2 & X2 & S2).
        assert (Hx2 : executions (trace s1) = S (executions (trace s))).
        { destruct E1 as (_ & _ & _ & _ & _ & -> & _). cbn [trace].
          rewrite !executions_app, Hx1.
          change (executions [EvNext row]) with 0%nat. lia. }
        rewrite Hx2 in R2.
        exists ([EvNext row] ++ ev1 ++ ev2). split.
        { eapply Extends_trans; [|eapply Extends_trans; eassumption].
          unfold Extends; cbn; repeat split; lia. }
        split; [now apply LoopResult_step|].
        split; [now apply LoopPolls_step|].
        split.
        { cbn [app Suffixes]. split.
          - destruct row; [exact I|]. rewrite N1. cbn [app NextBound]. eauto.
          - eapply Suffixes_app; [exact M1| |exact M2].
            intros [] post; cbn; auto.
            destruct row0; auto. intros (? & ? & ->). cbn [app]. eauto. }
        rewrite !forallb_app, !occurrences_app, L1, L2, F1, F2, A1, A2, B1, B2.
        do 4 (split; [reflexivity|]).
        split. { intros o. now rewrite !fold_left_app, O2, O1. }
        split. { now rewrite !existsb_app, X1, X2. }
        cbn [app Suffixes]. split.
        { unfold LoopStop. now rewrite Hnext. }
        eapply Suffixes_app; [exact S1| |exact S2].
        intros e post. unfold LoopStop. destruct (stops e); [|trivial].
        intros (? & _); discriminate.
      * injection H as <- <-. exists ([EvNext row] ++ ev1). split.
        { eapply Extends_trans; [|eassumption].
          unfold Extends; cbn; repeat split; lia. }
        split; [now apply LoopResult_abort|].
        split; [now apply LoopPolls_abort|].
        split.
        { cbn [app Suffixes]. split; [|exact M1].
          destruct row; [exact I|]. rewrite N1. cbn [NextBound]. eauto. }
        rewrite !forallb_app, !occurrences_app, L1, F1, A1, B1.
        do 4 (split; [reflexivity|]).
        split. { intros o. now rewrite !fold_left_app, O1. }
        split. { now rewrite !existsb_app, X1. }
        cbn [app Suffixes]. split.
        { unfold LoopStop. now rewrite Hnext. }
        revert S1. apply Suffixes_mono.
        intros e post. unfold LoopStop. destruct (stops e); [|trivial].
        intros (_ & -> & ->). auto.
    + injection H as <- <-. destruct row; [|discriminate].
      extends_now.
      split; [apply LoopResult_empty|].
      split; [apply LoopPolls_end|]. unfold LoopStop; cbn; intuition.
Qed.

Definition addRows (l : list Row) (st : Store) : Store :=
  fold_left (fun st args => insertRow args st) l st.

Lemma applyRows_pending l d p :
  applyRows l (mkDb d (Some p)) = mkDb d (Some (addRows l p)).
Proof.
  revert p. induction l as [|a l IH]; intros p; cbn; [reflexivity|].
  unfold applyRows in IH. now rewrite IH.
Qed.

Lemma applyRows_durable l d :
  applyRows l (mkDb d None) = mkDb (addRows l d) None.
Proof.
  revert d. induction l as [|a l IH]; intros d; cbn; [reflexivity|].
  unfold applyRows in IH. now rewrite IH.
Qed.

Lemma st_rows_addRows l st : st_rows (addRows l st) = st_rows st ++ l.
Proof.
  revert st. induction l as [|a l IH]; intros st; cbn.
  - now rewrite app_nil_r.
  - rewrite IH. cbn. now rewrite <- app_assoc.
Qed.

Lemma st_columns_addRows l st : st_columns (addRows l st) = st_columns st.
Proof.
  revert st. induction l as [|a l IH]; intros st; cbn; [reflexivity|].
  now rewrite IH.
Qed.

(** *** Running the whole of [run] symbolically *)

Ltac use_loop H :=
  let evs := fresh "evs" in
  let HE := fresh "HE" in let HL := fresh "HL" in
  let HF := fresh "HF" in let HA := fresh "HA" in
  let HB := fresh "HB" in let HS := fresh "HS" in let HO := fresh "HO" in
  let HX := fresh "HX" in let HN := fresh "HN" in let HP := fresh "HP" in
  let HR := fresh "HR" in
  apply importRows_extends in H as (evs & HE & HR & HP & HN & HL & HF & HA & HB & HO & HX & HS);
  specialize (HP 0%nat eq_refl);
  unfold Extends in HE; exec;
  destruct HE as (? & ? & ? & ? & ? & ? & ? & ?); subst;
  rewrite ?applyRows_pending, ?applyRows_durable in *.

Ltac branch_loop c r st s :=
  let E := fresh "E" in
  destruct (importRows c r st s) as [[|] [? ? ? ? ? ? ? ?]] eqn:E; use_loop E.

Ltac run_cases :=
  unfold runFrom, run, snd; exec; repeat (branch_with branch_loop; exec).

Lemma run_finished_counts (store : Store) :
  occurrences isFinished (trace (runFrom store)) = 1%nat /\
  occurrences isAfterImport (trace (runFrom store))
  = (if beforeImport plugin then 1 else 0)%nat.
Proof.
  run_cases.
  all: try discriminate; unfold occurrences in *; cbn;
    rewrite ?filter_app, ?length_app; cbn; rewrite ?HF, ?HA; split; lia.
Qed.

Lemma run_refused (store : Store) :
  beforeImport plugin = false ->
  trace (runFrom store) = [EvBeforeImport false; EvFinished false].
Proof.
  intros Hb. unfold runFrom, run, snd; exec. rewrite Hb. reflexivity.
Qed.

(** C3, as the code has it: every run emits [finished] exactly once; the
    plugin's [afterImport] is called exactly once when [beforeImport] had
    returned true, and not at all when it had returned false.  In that case
    the run is the call of [beforeImport] followed by [finished(false)] and
    nothing else: the signal is a failure, no error is notified and
    [afterImport] is not called. *)
Theorem run_finishes_once (store : Store) :
  let t := trace (runFrom store) in
  occurrences isFinished t = 1%nat /\
  occurrences isAfterImport t = (if beforeImport plugin then 1 else 0)%nat /\
  (beforeImport plugin = false ->
     t = [EvBeforeImport false; EvFinished false] /\
     outcome t = Some false /\
     (forall msg, ~ In (EvNotifyError msg) t) /\
     ~ In EvAfterImport t).
Proof.
  cbv zeta. destruct (run_finished_counts store) as [Hf Ha].
  split; [exact Hf|]. split; [exact Ha|].
  intros Hb. rewrite (run_refused store Hb).
  split; [reflexivity|]. split; [reflexivity|].
  split; [intros msg|]; intros [H|[H|[]]]; discriminate H.
Qed.


(** *** What follows the events that end the insertion *)

Definition rollbackIfTransaction : list Event :=
  if skipTransaction config then [] else [EvRollback].

Definition commitError (errText : string) : string :=
  arg (tr "Could not commit transaction for imported data: %1") [errText].

(** The events of [run] once [importData] has returned true. *)
Definition commitPhase (created : bool) : list Event :=
  let success :=
    (if created then [EvCreatedTable table] else []) ++ [EvAfterImport; EvFinished true] in
  if skipTransaction config then success
  else match commit_error engine with
       | None => EvCommit true :: success
       | Some errText =>
           [EvCommit false; EvNotifyError (commitError errText);
            EvAfterImport; EvFinished false; EvRollback]
       end.

Definition closing (created : bool) (e : Event) : list Event :=
  if isEnd e then commitPhase created else rollbackIfTransaction.

Ltac finish_suffixes HS :=
  rewrite <- ?app_assoc; cbn [Suffixes app];
  repeat match goal with
         | |- _ /\ _ => split
         | |- Suffixes _ ?l => is_var l; rewrite <- (app_nil_r l)
         | |- Suffixes _ (_ ++ _) =>
             eapply Suffixes_app; [exact HS | |]
         | |- forall _ _, LoopStop _ _ _ -> _ =>
             let e := fresh "e" in let post := fresh "post" in
             let Hok := fresh "Hok" in
             intros e post; unfold LoopStop; destruct (stops e);
             [intros [-> Hok]; try rewrite <- Hok; cbn; try reflexivity
             | intros _; exact I]
         | |- _ => first [ exact I | reflexivity | progress cbn ]
         end.

Lemma run_stops (store : Store) :
  Suffixes (fun e post =>
              match stops e with
              | Some tail => post = tail ++ closing (tableCreated (runFrom store)) e
              | None => True
              end)
           (trace (runFrom store)).
Proof.
  unfold closing, commitPhase, rollbackIfTransaction, commitError.
  run_cases.
  all: try discriminate.
  all: try finish_suffixes HS.
Qed.

(** *** What a run leaves in the database *)

(** The store once the run's statements that succeeded are applied: the
    table as created by the run if it created one, and the rows whose
    execution succeeded. *)
Definition written (store : Store) (s : State) : Store :=
  addRows (inserted (trace s))
          (if tableCreated s then createTable (columnsFromPlugin s) store else store).

(** Without a transaction every statement that succeeded stays; with one,
    the run leaves either all of them (it signalled success) or the store
    it started from. *)
Lemma run_db (store : Store) :
  db (runFrom store)
  = if skipTransaction config then mkDb (written store (runFrom store)) None
    else match outcome (trace (runFrom store)) with
         | Some true => mkDb (written store (runFrom store)) None
         | _ => mkDb store None
         end.
Proof.
  unfold written, outcome.
  run_cases.
  all: try discriminate.
  all: rewrite <- ?app_assoc; unfold inserted in *;
       cbn [app fold_left signal flat_map];
       rewrite ?fold_left_app, ?HO, ?flat_map_app;
       cbn [app fold_left signal flat_map];
       rewrite ?app_nil_r; try reflexivity.
Qed.

(** *** Transactions *)

Definition isCommitted (e : Event) : bool :=
  match e with EvCommit true => true | _ => false end.

Definition isBegun (e : Event) : bool :=
  match e with EvBegin true => true | _ => false end.

Lemma loop_silent (p : Event -> bool) (evs : list Event) :
  (forall e, loopEvent e = true -> p e = false) ->
  forallb loopEvent evs = true -> occurrences p evs = 0%nat.
Proof.
  intros Hp. unfold occurrences.
  induction evs as [|e evs IH]; cbn; [reflexivity|].
  intros H. apply andb_prop in H as [He Hevs].
  rewrite (Hp e He). auto.
Qed.

Lemma loop_quiet (p : Event -> bool) (evs : list Event) :
  (forall e, loopEvent e = true -> p e = false) ->
  forallb loopEvent evs = true -> existsb p evs = false.
Proof.
  intros Hp. induction evs as [|e evs IH]; cbn; [reflexivity|].
  intros H. apply andb_prop in H as [He Hevs].
  rewrite (Hp e He). auto.
Qed.

Lemma loopEvent_not_committed e : loopEvent e = true -> isCommitted e = false.
Proof. destruct e as [| | | | | | | | |[|]| | | | | | |]; cbn; congruence. Qed.

Lemma loopEvent_not_rollback e : loopEvent e = true -> isRollback e = false.
Proof. destruct e; cbn; congruence. Qed.

Lemma loopEvent_not_begun e : loopEvent e = true -> isBegun e = false.
Proof. destruct e as [| |[|]| | | | | | | | | | | | | |]; cbn; congruence. Qed.

(** Rewrites what is known of the events of the loop into the goal. *)
Ltac loop_counts HL :=
  rewrite ?(loop_silent isCommitted _ loopEvent_not_committed HL),
          ?(loop_silent isRollback _ loopEvent_not_rollback HL),
          ?(loop_silent isBegun _ loopEvent_not_begun HL),
          ?(loop_quiet isBegun _ loopEvent_not_begun HL).

Ltac norm_trace :=
  unfold outcome in *; rewrite <- ?app_assoc; cbn [app];
  repeat first
    [ progress cbn [fold_left signal existsb isBegun isCommitted isRollback fatal
                    negb orb andb]
    | rewrite fold_left_app
    | rewrite existsb_app
    | rewrite occurrences_app
    | match goal with HO : forall o, fold_left signal _ o = _ |- _ => rewrite HO end
    | match goal with HX : existsb fatal _ = _ |- _ => rewrite HX end ].

Lemma run_outcome (store : Store) :
  outcome (trace (runFrom store)) = Some true \/
  outcome (trace (runFrom store)) = Some false.
Proof.
  run_cases; try discriminate; norm_trace; auto.
Qed.

Lemma run_transaction_counts (store : Store) :
  skipTransaction config = false ->
  occurrences isCommitted (trace (runFrom store))
  = match outcome (trace (runFrom store)) with Some true => 1 | _ => 0 end%nat /\
  occurrences isRollback (trace (runFrom store))
  = match outcome (trace (runFrom store)) with
    | Some true => 0
    | _ => if existsb isBegun (trace (runFrom store)) then 1 else 0
    end%nat.
Proof.
  intros Htx. run_cases; try congruence.
  all: norm_trace; rewrite ?occurrences_cons; norm_trace; loop_counts HL;
       cbn [isCommitted isRollback occurrences filter length Nat.add orb];
       split; reflexivity.
Qed.

Lemma ends_cons (x e : Event) (l : list Event) :
  (exists t, l = t ++ [x]) -> exists t, e :: l = t ++ [x].
Proof. intros [t ->]. now exists (e :: t). Qed.

Lemma ends_app (x : Event) (l1 l2 : list Event) :
  (exists t, l2 = t ++ [x]) -> exists t, l1 ++ l2 = t ++ [x].
Proof. intros [t ->]. exists (l1 ++ t). now rewrite app_assoc. Qed.

Ltac ends_with :=
  first [ exists []; reflexivity
        | apply ends_cons; ends_with
        | apply ends_app; ends_with ].

Ltac find_in :=
  repeat match goal with
         | |- In _ (_ ++ _) => apply in_or_app; right
         | |- In _ (_ :: _) => first [ left; reflexivity | right ]
         end.

Lemma run_fatal_rollback (store : Store) :
  skipTransaction config = false ->
  existsb fatal (trace (runFrom store)) = true ->
  exists t, trace (runFrom store) = t ++ [EvRollback].
Proof.
  intros Htx. run_cases; try congruence.
  all: norm_trace; try discriminate; intros _; ends_with.
Qed.

Definition isCommitFailed (e : Event) : bool :=
  match e with EvCommit false => true | _ => false end.

Lemma loopEvent_not_commitFailed e : loopEvent e = true -> isCommitFailed e = false.
Proof. destruct e as [| | | | | | | | |[|]| | | | | | |]; cbn; congruence. Qed.

Lemma run_commit_failure (store : Store) (errText : string) :
  commit_error engine = Some errText ->
  In (EvCommit false) (trace (runFrom store)) ->
  In (EvNotifyError (commitError errText)) (trace (runFrom store)) /\
  outcome (trace (runFrom store)) = Some false.
Proof.
  intros Hc Hin.
  assert (Hex : existsb isCommitFailed (trace (runFrom store)) = true)
    by (apply existsb_exists; exists (EvCommit false); auto).
  clear Hin. revert Hex. unfold commitError. run_cases; try congruence.
  all: norm_trace; cbn [existsb isCommitFailed orb errorText];
       rewrite ?(loop_quiet isCommitFailed _ loopEvent_not_commitFailed HL);
       cbn [existsb isCommitFailed orb]; try discriminate; intros _.
  all: injection Hc as <-; split; [find_in | reflexivity].
Qed.


(** *** Messages *)

(** [includes s sub]: the text [sub] occurs in [s]. *)
Definition includes (s sub : string) : Prop :=
  exists before after, s = (before ++ sub ++ after)%string.

Lemma append_empty_r (s : string) : (s ++ "")%string = s.
Proof. induction s as [|c s IH]; cbn; [reflexivity|now rewrite IH]. Qed.

Transparent arg.

Lemma rowError_text (errText : string) :
  rowError errText = ("Error while importing data: " ++ errText)%string.
Proof. unfold rowError, tr. cbv -[append]. now rewrite append_empty_r. Qed.

Lemma commitError_text (errText : string) :
  commitError errText
  = ("Could not commit transaction for imported data: " ++ errText)%string.
Proof. unfold commitError, tr. cbv -[append]. now rewrite append_empty_r. Qed.

Lemma interruptedError_text :
  interruptedError = "Error while importing data: Interrupted."%string.
Proof. reflexivity. Qed.

Lemma rowWarning_text (rowNumber : Z) (errText : string) :
  rowWarning rowNumber errText
  = ("Could not import data row number " ++ QString_number rowNumber
     ++ ". The row was ignored. Problem details: " ++ errText)%string.
Proof.
  unfold rowWarning, tr. cbv -[append QString_number].
  now rewrite append_empty_r.
Qed.

Opaque arg.

(** ** The claims about a run *)

(** C2.  A run inside a transaction ([skipTransaction] false) either signals
    success, and then the database holds, durably, the table as the run
    created it (if it did) and every row whose execution succeeded, after
    exactly one successful commit and no rollback; or it signals failure,
    and then the database is the store the run started from, nothing was
    committed, and rollback was called exactly once if the transaction had
    been opened.  Every failure at or after the preparation of the table (a
    failed CREATE TABLE, a failed execution when errors are not ignored, the
    interruption flag seen set, a failed commit) is followed by a rollback
    that ends the run; a failed commit is reported with the
    "Could not commit transaction" error and fails the run. *)
Theorem transactional_run_is_atomic (store : Store) :
  skipTransaction config = false ->
  let s := runFrom store in
  let t := trace s in
  ((outcome t = Some true /\ db s = mkDb (written store s) None /\
    occurrences isCommitted t = 1%nat /\ occurrences isRollback t = 0%nat)
   \/
   (outcome t = Some false /\ db s = mkDb store None /\
    occurrences isCommitted t = 0%nat /\
    occurrences isRollback t = (if existsb isBegun t then 1 else 0)%nat))
  /\ (forall e, In e t -> fatal e = true -> exists t', t = t' ++ [EvRollback])
  /\ (forall errText, commit_error engine = Some errText ->
        In (EvCommit false) t ->
        In (EvNotifyError (commitError errText)) t /\ outcome t = Some false).
Proof.
  intros Htx s t. subst s t.
  pose proof (run_db store) as Hdb. rewrite Htx in Hdb.
  destruct (run_transaction_counts store Htx) as [Hc Hr].
  split; [|split].
  - destruct (run_outcome store) as [Ho|Ho]; rewrite Ho in *; [left|right]; auto.
  - intros e Hin Hf. apply run_fatal_rollback; [assumption|].
    apply existsb_exists. eauto.
  - intros errText. apply run_commit_failure.
Qed.

(** C4.  With [ignoreErrors] false, an execution that fails is followed by
    nothing but the error notification carrying the text of the underlying
    error, the plugin's [afterImport], [finished(false)] and, in a
    transaction, the rollback: no row is read or executed after it, none had
    failed before it, the run fails, and in a transaction the database is
    left as the run found it. *)
Theorem failed_row_aborts (store : Store) (pre post : list Event)
        (args : Row) (errText : string) :
  ignoreErrors config = false ->
  trace (runFrom store) = pre ++ EvExecute args (Some errText) :: post ->
  post = [EvNotifyError (rowError errText); EvAfterImport; EvFinished false]
         ++ rollbackIfTransaction /\
  includes (rowError errText) errText /\
  (forall args' errText', ~ In (EvExecute args' (Some errText')) pre) /\
  outcome (trace (runFrom store)) = Some false /\
  (skipTransaction config = false -> db (runFrom store) = mkDb store None).
Proof.
  intros Hig Ht.
  pose proof (proj1 (Suffixes_spec _ _) (run_stops store)) as Hstops.
  assert (Hpost : post = [EvNotifyError (rowError errText); EvAfterImport; EvFinished false]
                         ++ rollbackIfTransaction).
  { specialize (Hstops _ _ _ Ht). cbn in Hstops. rewrite Hig in Hstops. exact Hstops. }
  assert (Hout : outcome (trace (runFrom store)) = Some false).
  { rewrite Ht, Hpost. unfold outcome, rollbackIfTransaction.
    rewrite fold_left_app. now destruct (skipTransaction config). }
  repeat split; auto.
  - exists "Error while importing data: "%string, ""%string.
    now rewrite rowError_text, append_empty_r.
  - intros args' errText' Hin.
    apply in_split in Hin as (p1 & p2 & ->).
    rewrite <- app_assoc in Ht. cbn [app] in Ht.
    specialize (Hstops _ _ _ Ht). cbn in Hstops. rewrite Hig in Hstops.
    assert (Hx : In (EvExecute args (Some errText)) (p2 ++ EvExecute args (Some errText) :: post))
      by (apply in_or_app; right; left; reflexivity).
    rewrite Hstops in Hx. unfold rollbackIfTransaction in Hx.
    destruct (skipTransaction config); cbn in Hx; intuition discriminate.
  - intros Htx. pose proof (run_db store) as Hdb. now rewrite Htx, Hout in Hdb.
Qed.

Lemma colDefs_length names types dialect :
  length (colDefs names types dialect) = length names.
Proof. unfold colDefs. now rewrite length_map, length_seq. Qed.

Lemma colDefs_nth names types dialect i :
  (i < length names)%nat ->
  nth i (colDefs names types dialect) EmptyString
  = trimmed (wrapObjIfNeeded (nth i names EmptyString) dialect
             ++ " " ++ nth i types EmptyString)%string.
Proof.
  intros Hi. unfold colDefs.
  set (f := fun i => trimmed (wrapObjIfNeeded (nth i names EmptyString) dialect
                              ++ " " ++ nth i types EmptyString)%string).
  rewrite (nth_indep _ EmptyString (f 0%nat)) by now rewrite length_map, length_seq.
  rewrite map_nth, seq_nth by assumption. reflexivity.
Qed.

(** The CREATE TABLE statement [prepareTable] builds for the columns of the
    plugin. *)
Definition createSql (names types : list string) : string :=
  arg ddl [wrapObjIfNeeded table (getDialect engine);
           join ", " (colDefs names types (getDialect engine))].

Definition createFlags : list Flag :=
  if skipTransaction config then [NO_LOCK] else [NONE].

(** C1.  Let [prepareTable] succeed from a state where the destination has
    the columns D and the plugin gave the columns S.  If D is empty, the
    CREATE TABLE statement lists exactly the columns of S, in their order
    (the i-th definition is the quoted i-th name and its declared type), the
    table then has the columns S, [tableCreated] is set and the INSERT
    columns are those of S.  If D is not empty, nothing is created, the
    INSERT column list has [min |D| |S|] entries: all of D with the
    "less columns" warning when [|D| < |S|], the first [|S|] columns of D
    with the "more columns" notice when [|D| > |S|], and D with no notice
    when [|D| = |S|]. *)
Theorem prepareTable_reconciles (s s' : State) :
  prepareTable s = (true, s') ->
  let D := st_columns (view (db s)) in
  let S := columnsFromPlugin s in
  let T := columnTypesFromPlugin s in
  let dialect := getDialect engine in
  (D = [] ->
     tableCreated s' = true /\
     view (db s') = mkStore S [] /\
     targetColumns s' = wrapObjNamesIfNeeded S dialect /\
     trace s' = trace s ++ [EvGetTableColumns []; EvExec (createSql S T) createFlags None;
                            EvIsInterrupted false] /\
     length (colDefs S T dialect) = length S /\
     (forall i, (i < length S)%nat ->
        nth i (colDefs S T dialect) EmptyString
        = trimmed (wrapObjIfNeeded (nth i S EmptyString) dialect
                   ++ " " ++ nth i T EmptyString)%string))
  /\
  (D <> [] ->
     tableCreated s' = tableCreated s /\ db s' = db s /\
     length (targetColumns s') = Nat.min (length D) (length S) /\
     ((length D < length S)%nat ->
        targetColumns s' = wrapObjNamesIfNeeded D dialect /\
        trace s' = trace s ++ [EvGetTableColumns D; EvNotifyWarn lessColumnsWarning;
                               EvIsInterrupted false]) /\
     ((length S < length D)%nat ->
        targetColumns s' = wrapObjNamesIfNeeded (firstn (length S) D) dialect /\
        trace s' = trace s ++ [EvGetTableColumns D; EvNotifyInfo moreColumnsInfo;
                               EvIsInterrupted false]) /\
     (length D = length S ->
        targetColumns s' = wrapObjNamesIfNeeded D dialect /\
        trace s' = trace s ++ [EvGetTableColumns D; EvIsInterrupted false])).
Proof.
  intros H D S T dialect. subst D S T dialect.
  replace s' with (snd (prepareTable s)) by now rewrite H.
  assert (Hok : fst (prepareTable s) = true) by now rewrite H.
  clear H. revert Hok. unfold createSql, createFlags.
  destruct s as [cp ct tc tg cr [[dc dr] [[pc pr]|]] po tr0]; exec;
    repeat (branch_run; exec; cbn [fst snd]; exec); intros H; try discriminate H.
  all: repeat match goal with
       | H : (_ <? _)%nat = true |- _ => apply Nat.ltb_lt in H
       | H : (_ <? _)%nat = false |- _ => apply Nat.ltb_ge in H
       end.
  all: unfold wrapObjNamesIfNeeded, mid; cbn [skipn];
       rewrite ?length_map, ?length_firstn, <- ?app_assoc; cbn [app].
  all: split; intros HD;
       [ try (subst; cbn in *; lia)
       | try (exfalso; apply HD; now apply length_zero_iff_nil; cbn in *; lia) ].
  all: repeat split; intros; try lia; try reflexivity;
       auto using colDefs_length, colDefs_nth.
  all: try (exfalso; apply HD; apply length_zero_iff_nil; lia).
  all: now rewrite HD.
Qed.

(** *** The values bound for a row *)

Lemma boundArgs_short (row : Row) (colCount : nat) :
  (length row < colCount)%nat ->
  boundArgs row colCount
  = row ++ repeat (QVariant_null QV_String) (colCount - length row).
Proof.
  intros H. unfold boundArgs, mid, fillUp. cbn [skipn].
  apply firstn_all2. rewrite length_app, repeat_length. lia.
Qed.

Lemma boundArgs_long (row : Row) (colCount : nat) :
  (colCount <= length row)%nat -> boundArgs row colCount = firstn colCount row.
Proof.
  intros H. unfold boundArgs, mid, fillUp. cbn [skipn].
  replace (colCount - length row)%nat with 0%nat by lia.
  cbn [repeat]. now rewrite app_nil_r.
Qed.

Lemma NextBound_app colCount e post b :
  NextBound colCount e post -> NextBound colCount e (post ++ b).
Proof.
  destruct e; cbn; auto. destruct row; auto.
  intros (err & post' & ->). cbn [app]. eauto.
Qed.

Lemma loop_suffixes (P : Event -> list Event -> Prop) (evs : list Event) :
  (forall e post, loopEvent e = true -> P e post) ->
  forallb loopEvent evs = true -> Suffixes P evs.
Proof.
  intros HP. induction evs as [|e evs IH]; cbn; [trivial|].
  intros H. apply andb_prop in H as [He Hevs]. auto.
Qed.

(** The INSERT statement [importData] prepares for [colCount] columns. *)
Definition insertSql (colCount : nat) : string :=
  arg insertTemplate [wrapObjIfNeeded table (getDialect engine);
                      join ", " (repeat "?"%string colCount)].

Definition PreparedFor (colCount : nat) (e : Event) (post : list Event) : Prop :=
  match e with
  | EvPrepare sql _ => sql = insertSql colCount
  | _ => True
  end.

Ltac trace_suffixes on_loop :=
  rewrite <- ?app_assoc; cbn [Suffixes app];
  repeat match goal with
         | |- _ /\ _ => split
         | |- Suffixes _ ?l => is_var l; rewrite <- (app_nil_r l)
         | |- Suffixes _ (_ ++ _) => eapply Suffixes_app; [on_loop | |]
         | |- _ => first [ exact I | reflexivity | progress cbn ]
         end.

Lemma run_binds (store : Store) :
  Suffixes (NextBound (length (targetColumns (runFrom store)))) (trace (runFrom store)).
Proof.
  run_cases; try discriminate.
  all: trace_suffixes ltac:(exact HN); intros; now apply NextBound_app.
Qed.

Lemma run_prepares (store : Store) :
  Suffixes (PreparedFor (length (targetColumns (runFrom store)))) (trace (runFrom store)).
Proof.
  unfold PreparedFor, insertSql.
  run_cases; try discriminate.
  all: trace_suffixes ltac:(apply (loop_suffixes (fun e _ => loopEvent e = true)); [auto|exact HL]).
  all: intros [] post; cbn; auto; discriminate.
Qed.

Lemma run_binds_exactly (store : Store) :
  forallb (bindsExactly (length (targetColumns (runFrom store)))) (trace (runFrom store))
  = true.
Proof.
  run_cases; try discriminate.
  all: rewrite <- ?app_assoc; cbn [app forallb bindsExactly andb];
       rewrite ?forallb_app, ?HB; reflexivity.
Qed.

(** C6.  The values bound for a row and a column count C are the row with
    null strings appended up to C values when it is shorter, and its first C
    values when it is longer: always exactly C values.  In a run, with C the
    number of reconciled columns: every row read that is not empty is
    followed by one execution with the values so bound, every execution
    binds exactly C values, and the statement prepared has C placeholders;
    so the length of a row as the plugin returned it never reaches the
    database. *)
Theorem row_shape_reconciled (store : Store) :
  (forall (row : Row) (colCount : nat),
     length (boundArgs row colCount) = colCount /\
     ((length row < colCount)%nat ->
        boundArgs row colCount
        = row ++ repeat (QVariant_null QV_String) (colCount - length row)) /\
     ((colCount < length row)%nat -> boundArgs row colCount = firstn colCount row) /\
     (length row = colCount -> boundArgs row colCount = row))
  /\
  (let s := runFrom store in
   let colCount := length (targetColumns s) in
   (forall pre row post, trace s = pre ++ EvNext row :: post -> row <> [] ->
      exists err post', post = EvExecute (boundArgs row colCount) err :: post') /\
   (forall args err, In (EvExecute args err) (trace s) -> length args = colCount) /\
   (forall sql flags, In (EvPrepare sql flags) (trace s) -> sql = insertSql colCount)).
Proof.
  split.
  - intros row colCount. split; [apply length_boundArgs|].
    split; [apply boundArgs_short|]. split.
    + intros H. apply boundArgs_long. lia.
    + intros H. rewrite boundArgs_long by lia. apply firstn_all2. lia.
  - cbv zeta. split; [|split].
    + intros pre row post Ht Hrow.
      pose proof (proj1 (Suffixes_spec _ _) (run_binds store) _ _ _ Ht) as H.
      destruct row; [congruence|exact H].
    + intros args err Hin.
      pose proof (proj1 (forallb_forall _ _) (run_binds_exactly store) _ Hin) as H.
      cbn in H. now apply Nat.eqb_eq.
    + intros sql flags Hin. apply in_split in Hin as (pre & post & Ht).
      exact (proj1 (Suffixes_spec _ _) (run_prepares store) _ _ _ Ht).
Qed.

(** *** Reads of the interruption flag in a run *)

Lemma run_pollPositions (store : Store) :
  pollPositions 0 (trace (runFrom store))
  = map pollPosition (seq 0 (occurrences isPoll (trace (runFrom store)))).
Proof.
  run_cases; try discriminate.
  all: try rewrite <- (app_nil_r evs).
  all: rewrite <- ?app_assoc; cbn [app pollPositions isPoll isExecute];
       rewrite ?(proj1 HP); rewrite ?occurrences_cons, ?occurrences_app;
       cbn [app pollPositions isPoll isExecute occurrences filter length Nat.add];
       change (pollIndex 0) with 1%nat;
       rewrite ?Nat.add_0_r, ?app_nil_r; reflexivity.
Qed.

Lemma run_quiet (store : Store) : quiet 0 (trace (runFrom store)) = true.
Proof.
  run_cases; try discriminate.
  all: try rewrite <- (app_nil_r evs).
  all: rewrite <- ?app_assoc; cbn [app quiet isPoll isExecute];
       try (apply (proj2 HP); intros k; reflexivity); reflexivity.
Qed.

(** No execution before the first read of the flag. *)
Fixpoint polledFirst (t : list Event) : bool :=
  match t with
  | [] => true
  | e :: rest =>
      if isPoll e then true
      else if isExecute e then false
      else polledFirst rest
  end.

Lemma run_polledFirst (store : Store) : polledFirst (trace (runFrom store)) = true.
Proof.
  run_cases; try discriminate.
  all: rewrite <- ?app_assoc; cbn [app polledFirst isPoll isExecute]; reflexivity.
Qed.

Lemma run_inStep (store : Store) : inStep 0 (trace (runFrom store)) = true.
Proof.
  run_cases; try discriminate.
  all: try rewrite <- (app_nil_r evs).
  all: rewrite <- ?app_assoc; cbn [app inStep isRowRead isPoll isExecute Nat.eqb andb];
       try rewrite (proj2 (proj2 HP)); reflexivity.
Qed.

(** *** From the readings of a trace to its decompositions *)

Lemma polledFirst_spec (t : list Event) :
  polledFirst t = true ->
  forall pre args err post, t = pre ++ EvExecute args err :: post ->
  exists seen, In (EvIsInterrupted seen) pre.
Proof.
  intros H pre. revert t H.
  induction pre as [|e pre IH]; intros t H args err post ->; cbn in H.
  - discriminate.
  - destruct e; cbn in H; try discriminate;
      try (destruct (IH _ H args err post eq_refl) as [seen Hin];
           exists seen; right; exact Hin).
    exists seen. left. reflexivity.
Qed.

Lemma quiet_skip (a r : list Event) : forall c,
  quiet c (a ++ r) = true -> exists c', quiet c' r = true.
Proof.
  induction a as [|e a IH]; intros c H; cbn in H; [eauto|].
  destruct (isPoll e); [eauto|].
  destruct (isExecute e); [|eauto].
  apply andb_prop in H as [_ H]. eauto.
Qed.

Lemma quiet_count (m b : list Event) : forall c,
  quiet c (m ++ b) = true -> occurrences isPoll m = 0%nat ->
  (c + executions m <= 100)%nat \/ executions m = 0%nat.
Proof.
  unfold executions.
  induction m as [|e m IH]; intros c H Hp; [now right|].
  rewrite occurrences_cons in *. cbn [app quiet] in H.
  destruct (isPoll e); [discriminate|].
  destruct (isExecute e).
  - apply andb_prop in H as [Hc H]. apply Nat.leb_le in Hc.
    destruct (IH _ H Hp); left; lia.
  - destruct (IH _ H Hp); [left|right]; lia.
Qed.

Lemma quiet_spec (t : list Event) :
  quiet 0 t = true ->
  forall a m b, t = a ++ m ++ b -> occurrences isPoll m = 0%nat ->
  (executions m <= 100)%nat.
Proof.
  intros H a m b -> Hp.
  apply quiet_skip in H as [c H].
  destruct (quiet_count _ _ _ H Hp); lia.
Qed.

Lemma pollPositions_split (pre post : list Event) (e : Event) :
  isPoll e = true -> forall x,
  pollPositions x (pre ++ e :: post)
  = pollPositions x pre ++ (x + executions pre)%nat
      :: pollPositions (x + executions pre) post.
Proof.
  intros He. unfold executions.
  induction pre as [|y pre IH]; intros x; cbn [app pollPositions].
  - rewrite He. cbn. now rewrite Nat.add_0_r.
  - rewrite occurrences_cons.
    destruct (isPoll y) eqn:Hy.
    + destruct y; try discriminate. cbn [isExecute app Nat.add].
      now rewrite IH.
    + destruct (isExecute y); rewrite IH; cbn [Nat.add];
        rewrite ?Nat.add_succ_r; reflexivity.
Qed.

Lemma pollPositions_length (t : list Event) : forall x,
  length (pollPositions x t) = occurrences isPoll t.
Proof.
  induction t as [|e t IH]; intros x; [reflexivity|].
  rewrite occurrences_cons. cbn [pollPositions].
  destruct (isPoll e); [cbn; now rewrite IH|].
  destruct (isExecute e); now rewrite IH.
Qed.

Lemma pollPositions_spec (t : list Event) :
  pollPositions 0 t = map pollPosition (seq 0 (occurrences isPoll t)) ->
  forall pre seen post, t = pre ++ EvIsInterrupted seen :: post ->
  executions pre = pollPosition (occurrences isPoll pre).
Proof.
  intros H pre seen post ->.
  rewrite pollPositions_split in H by reflexivity.
  rewrite occurrences_app, occurrences_cons in H. cbn [isPoll Nat.add] in H.
  assert (Hn : nth (occurrences isPoll pre)
                   (pollPositions 0 pre ++ executions pre :: pollPositions (executions pre) post)
                   0%nat = executions pre).
  { rewrite <- (pollPositions_length pre 0). apply nth_middle. }
  rewrite H in Hn. rewrite <- Hn.
  rewrite (nth_indep _ 0%nat (pollPosition 0)) by (rewrite length_map, length_seq; lia).
  rewrite map_nth, seq_nth by lia. reflexivity.
Qed.

Lemma inStep_spec (t : list Event) : forall d,
  inStep d t = true ->
  forall pre seen post, t = pre ++ EvIsInterrupted seen :: post ->
  (d + occurrences isRowRead pre)%nat = executions pre.
Proof.
  unfold executions.
  intros d H pre. revert t d H.
  induction pre as [|e pre IH]; intros t d H seen post ->; cbn [app inStep] in H.
  - cbn in H. apply andb_prop in H as [H _]. apply Nat.eqb_eq in H. now subst.
  - rewrite !occurrences_cons.
    destruct (isRowRead e) eqn:Hr.
    + destruct e; try discriminate. cbn [isExecute].
      specialize (IH _ _ H seen post eq_refl). lia.
    + destruct (isExecute e).
      * destruct d; [discriminate|].
        specialize (IH _ _ H seen post eq_refl). lia.
      * destruct (isPoll e).
        -- apply andb_prop in H as [_ H].
           specialize (IH _ _ H seen post eq_refl). lia.
        -- specialize (IH _ _ H seen post eq_refl). lia.
Qed.

Lemma run_poll_seen (store : Store) (pre post : list Event) :
  trace (runFrom store) = pre ++ EvIsInterrupted true :: post ->
  post = [EvNotifyError interruptedError; EvAfterImport; EvFinished false]
         ++ rollbackIfTransaction.
Proof.
  intros Ht.
  exact (proj1 (Suffixes_spec _ _) (run_stops store) _ _ _ Ht).
Qed.

(** *** The first read of the flag *)

(** What a run does before it prepares the table: the plugin is set up and
    asked for its columns, and the transaction, if any, is begun. *)
Definition opening : list Event :=
  [EvBeforeImport true; EvGetColumns]
  ++ (if skipTransaction config then [] else [EvBegin true]).

(** The reconciliation of [prepareTable] when it goes through, on a table
    with the columns of [store]: the columns of the table are listed; then
    the notice about the number of columns is given if the table exists, and
    the table is created from the columns of the plugin if it does not. *)
Definition reconciliation (store : Store) : list Event :=
  let names := map fst (getColumns plugin) in
  let types := map snd (getColumns plugin) in
  EvGetTableColumns (st_columns store)
  :: (if (0 <? length (st_columns store))%nat then
        if (length (st_columns store) <? length names)%nat
        then [EvNotifyWarn lessColumnsWarning]
        else if (length names <? length (st_columns store))%nat
             then [EvNotifyInfo moreColumnsInfo]
             else []
      else [EvExec (createSql names types) createFlags None]).

(** The events that come before the first read of the flag. *)
Fixpoint beforeFirstPoll (t : list Event) : list Event :=
  match t with
  | [] => []
  | e :: rest => if isPoll e then [] else e :: beforeFirstPoll rest
  end.

Lemma beforeFirstPoll_spec (pre post : list Event) (e : Event) :
  isPoll e = true -> occurrences isPoll pre = 0%nat ->
  beforeFirstPoll (pre ++ e :: post) = pre.
Proof.
  intros He. induction pre as [|x pre IH]; cbn [app beforeFirstPoll].
  - now rewrite He.
  - rewrite occurrences_cons. destruct (isPoll x); [discriminate|].
    intros H. now rewrite IH.
Qed.

Lemma run_first_poll (store : Store) :
  existsb isPoll (trace (runFrom store)) = true ->
  beforeFirstPoll (trace (runFrom store)) = opening ++ reconciliation store.
Proof.
  unfold opening, reconciliation, createSql, createFlags.
  run_cases; try discriminate.
  all: rewrite <- ?app_assoc;
       cbn [app existsb isPoll orb beforeFirstPoll length st_columns];
       try discriminate; intros _; reflexivity.
Qed.

Lemma run_reaches_first_poll (store : Store) :
  beforeImport plugin = true -> getColumns plugin <> [] ->
  (skipTransaction config = true \/ begin_error engine = None) ->
  (st_columns store <> [] \/
   exec_error engine (createSql (map fst (getColumns plugin))
                                (map snd (getColumns plugin))) = None) ->
  exists post,
    trace (runFrom store)
    = opening ++ reconciliation store ++ EvIsInterrupted (interruptedAt 0) :: post.
Proof.
  intros Hb Hc Hbegin Hcreate.
  unfold opening, reconciliation, createSql, createFlags in *.
  destruct (getColumns plugin) as [|cd cds] eqn:Hcols; [congruence|].
  unfold runFrom, run, snd; exec.
  repeat (first
    [ rewrite Hb | rewrite Hcols
    | progress cbn [length map Nat.eqb]
    | branch_with branch_loop ];
    exec).
  all: try match goal with
            | H : false = true |- _ => discriminate H
            | H : true = false |- _ => discriminate H
            end.
  all: try solve [destruct Hbegin as [Hx|Hx]; discriminate Hx].
  all: try solve [destruct Hcreate as [Hx|Hx];
                  [exfalso; apply Hx; apply length_zero_iff_nil;
                   match goal with E : (0 <? _)%nat = false |- _ =>
                     apply Nat.ltb_ge in E; cbn [st_columns length] in *; lia end
                  |cbn [map] in Hx;
                   match goal with E : exec_error engine _ = Some _ |- _ =>
                     rewrite Hx in E; discriminate E end]].
  all: rewrite <- ?app_assoc; cbn [app st_columns length map]; eexists; reflexivity.
Qed.

(** C7.  In every run: before any execution the flag has been read, and
    found unset; the first read of the flag comes before any row is read or
    executed; between two successive reads there is one execution if the
    first of them is the first read of the run (the one after the
    reconciliation), and 100 executions otherwise; no stretch of the run
    without a read of the flag holds more than 100 executions; and a read
    that finds the flag set is followed by nothing but the "Interrupted"
    error, [afterImport], [finished(false)] and, in a transaction, the
    rollback.  The first read comes immediately after the reconciliation:
    what precedes it is the opening of the run followed by the listing of
    the table's columns and the notice or the CREATE TABLE, and nothing
    else; and it is made in every run that gets to prepare the table and
    whose reconciliation goes through, whether or not a row follows. *)
Theorem cancellation_is_polled (store : Store) :
  let t := trace (runFrom store) in
  (forall pre seen post, t = pre ++ EvIsInterrupted seen :: post ->
     occurrences isPoll pre = 0%nat ->
     pre = opening ++ reconciliation store) /\
  (beforeImport plugin = true -> getColumns plugin <> [] ->
   (skipTransaction config = true \/ begin_error engine = None) ->
   (st_columns store <> [] \/
    exec_error engine (createSql (map fst (getColumns plugin))
                                 (map snd (getColumns plugin))) = None) ->
   exists post,
     t = opening ++ reconciliation store ++ EvIsInterrupted (interruptedAt 0) :: post) /\
  (forall pre args err post, t = pre ++ EvExecute args err :: post ->
     In (EvIsInterrupted false) pre) /\
  (forall pre seen post, t = pre ++ EvIsInterrupted seen :: post ->
     occurrences isPoll pre = 0%nat ->
     executions pre = 0%nat /\ occurrences isRowRead pre = 0%nat) /\
  (forall pre seen1 mid seen2 post,
     t = pre ++ EvIsInterrupted seen1 :: mid ++ EvIsInterrupted seen2 :: post ->
     occurrences isPoll mid = 0%nat ->
     executions mid = if (occurrences isPoll pre =? 0)%nat then 1%nat else 100%nat) /\
  (forall a m b, t = a ++ m ++ b -> occurrences isPoll m = 0%nat ->
     (executions m <= 100)%nat) /\
  (forall pre post, t = pre ++ EvIsInterrupted true :: post ->
     post = [EvNotifyError interruptedError; EvAfterImport; EvFinished false]
            ++ rollbackIfTransaction /\
     outcome t = Some false).
Proof.
  cbv zeta.
  pose proof (pollPositions_spec _ (run_pollPositions store)) as Hpos.
  pose proof (inStep_spec _ 0%nat (run_inStep store)) as Hstep.
  split.
  { intros pre seen post Ht Hp.
    rewrite <- (run_first_poll store).
    - rewrite Ht. symmetry. now apply beforeFirstPoll_spec.
    - rewrite Ht, existsb_app. cbn. apply orb_true_r. }
  split; [apply run_reaches_first_poll|].
  split; [|split; [|split; [|split]]].
  - intros pre args err post Ht.
    destruct (polledFirst_spec _ (run_polledFirst store) _ _ _ _ Ht) as [[|] Hin];
      [exfalso|exact Hin].
    apply in_split in Hin as (p1 & p2 & ->).
    rewrite <- app_assoc in Ht. cbn [app] in Ht.
    apply run_poll_seen in Ht.
    assert (Hx : In (EvExecute args err) (p2 ++ EvExecute args err :: post))
      by (apply in_or_app; right; left; reflexivity).
    rewrite Ht in Hx. unfold rollbackIfTransaction in Hx.
    destruct (skipTransaction config); cbn in Hx; intuition discriminate.
  - intros pre seen post Ht Hp.
    specialize (Hpos _ _ _ Ht). specialize (Hstep _ _ _ Ht).
    rewrite Hp in Hpos. cbn in Hpos. lia.
  - intros pre seen1 mid seen2 post Ht Hp.
    pose proof (Hpos _ _ _ Ht) as H1.
    assert (Ht' : trace (runFrom store)
                  = (pre ++ EvIsInterrupted seen1 :: mid) ++ EvIsInterrupted seen2 :: post)
      by (rewrite Ht, <- app_assoc; reflexivity).
    pose proof (Hpos _ _ _ Ht') as H2.
    unfold executions in *.
    rewrite !occurrences_app, !occurrences_cons, Hp in H2. cbn [isPoll isExecute] in H2.
    rewrite H1 in H2.
    destruct (occurrences isPoll pre) as [|j]; cbn [Nat.eqb].
    + cbn in H2. lia.
    + replace (S j + (1 + 0))%nat with (S (S j)) in H2 by lia.
      unfold pollPosition in *. lia.
  - apply quiet_spec, run_quiet.
  - intros pre post Ht. pose proof (run_poll_seen _ _ _ Ht) as Hpost.
    split; [exact Hpost|].
    rewrite Ht, Hpost. unfold outcome, rollbackIfTransaction.
    rewrite fold_left_app. now destruct (skipTransaction config).
Qed.

Lemma suffix_cons (e : Event) (l suf : list Event) :
  (exists t, l = t ++ suf) -> exists t, e :: l = t ++ suf.
Proof. intros [t ->]. now exists (e :: t). Qed.

Ltac has_suffix :=
  first [ exists []; reflexivity | apply suffix_cons; has_suffix ].

(** C10.  In every run, a read of the flag that has j+1 reads before it
    (so: any read but the one after the reconciliation) comes when exactly
    100 j + 1 rows have been read and as many executions made: the flag is
    read after the execution of the rows 1, 101, 201, ..., that is when the
    counter of the rows processed before the current one is a multiple of
    100.  In particular, when the read after the reconciliation finds the
    flag unset and the flag is set before the next read, a run that gets to
    insert, with a first row that is not empty and whose execution is not a
    fatal failure, executes exactly that one row and ends interrupted. *)
Theorem polls_follow_rows (store : Store) :
  let t := trace (runFrom store) in
  (forall pre seen post j, t = pre ++ EvIsInterrupted seen :: post ->
     occurrences isPoll pre = S j ->
     executions pre = (100 * j + 1)%nat /\
     occurrences isRowRead pre = (100 * j + 1)%nat)
  /\
  (forall row rest,
     beforeImport plugin = true -> getColumns plugin <> [] ->
     (skipTransaction config = true \/ begin_error engine = None) ->
     (st_columns store <> [] \/ forall sql, exec_error engine sql = None) ->
     rows plugin = row :: rest -> row <> [] ->
     (ignoreErrors config = true \/ forall args, execute_error engine 0 args = None) ->
     interruptedAt 0 = false -> interruptedAt 1 = true ->
     executions t = 1%nat /\ outcome t = Some false /\
     exists pre,
       t = pre ++ [EvIsInterrupted true; EvNotifyError interruptedError;
                   EvAfterImport; EvFinished false] ++ rollbackIfTransaction).
Proof.
  cbv zeta. split.
  - intros pre seen post j Ht Hp.
    pose proof (pollPositions_spec _ (run_pollPositions store) _ _ _ Ht) as Hpos.
    pose proof (inStep_spec _ 0%nat (run_inStep store) _ _ _ Ht) as Hstep.
    rewrite Hp in Hpos. unfold pollPosition in Hpos. lia.
  - intros row rest Hb Hc Hbegin Hcreate Hrows Hrow Hexec H0 H1.
    destruct row as [|v row]; [congruence|].
    destruct (getColumns plugin) as [|cd cds] eqn:Hcols; [congruence|].
    unfold rollbackIfTransaction, outcome, executions, occurrences.
    unfold runFrom, run, snd; exec.
    repeat (first
      [ rewrite Hb | rewrite H0 | rewrite H1
      | progress cbn [length map Nat.eqb Nat.ltb Nat.leb]
      | progress (unfold executions, occurrences; cbn [filter isExecute length])
      | progress change (Z.rem 0 100 =? 0)%Z with true
      | branch_with ltac:(fun c r st s =>
          rewrite Hrows; cbn [importRows length Nat.ltb Nat.leb]) ];
      exec; rewrite ?Hcols).
    all: try solve [destruct Hbegin as [Hx|Hx]; discriminate Hx].
    all: try solve [destruct Hexec as [Hexec|Hexec];
                    [discriminate Hexec
                    |match goal with E : execute_error engine 0 _ = Some _ |- _ =>
                       rewrite Hexec in E; discriminate E end]].
    all: try solve [destruct Hcreate as [Hcreate|Hcreate];
                    [exfalso; apply Hcreate; now apply length_zero_iff_nil
                    |match goal with E : exec_error engine _ = Some _ |- _ =>
                       rewrite Hcreate in E; discriminate E end]].
    all: split; [reflexivity|]; split; [reflexivity|]; cbn [app];
         with_strategy opaque [arg interruptedError rowWarning rowError] has_suffix.
Qed.

(** *** Errors ignored *)

Lemma failuresFrom_spec (attempts : list Row) : forall x i errText,
  In (i, errText) (failuresFrom x attempts) <->
  exists args, (x <= i)%nat /\ nth_error attempts (i - x) = Some args /\
               execute_error engine i args = Some errText.
Proof.
  induction attempts as [|a rest IH]; intros x i errText; cbn [failuresFrom].
  - split; [intros []|]. intros (args & _ & H & _). destruct (i - x)%nat; discriminate H.
  - assert (Hrest : In (i, errText) (failuresFrom (S x) rest) <->
                    exists args, (x < i)%nat /\ nth_error (a :: rest) (i - x) = Some args /\
                                 execute_error engine i args = Some errText).
    { rewrite IH. split; intros (args & Hi & Hn & He); exists args; (split; [lia|]);
        (split; [|exact He]).
      - replace (i - x)%nat with (S (i - S x)) by lia. exact Hn.
      - replace (i - x)%nat with (S (i - S x)) in Hn by lia. exact Hn. }
    destruct (execute_error engine x a) as [e|] eqn:Hx.
    + cbn [In]. rewrite Hrest. split.
      * intros [H|(args & Hi & Hn & He)].
        -- injection H as <- <-. exists a. rewrite Nat.sub_diag. auto.
        -- exists args. repeat split; [lia|assumption..].
      * intros (args & Hi & Hn & He).
        destruct (Nat.eq_dec x i) as [<-|Hne].
        -- left. rewrite Nat.sub_diag in Hn. injection Hn as <-. congruence.
        -- right. exists args. repeat split; [lia|assumption..].
    + rewrite Hrest. split.
      * intros (args & Hi & Hn & He). exists args. repeat split; [lia|assumption..].
      * intros (args & Hi & Hn & He).
        destruct (Nat.eq_dec x i) as [<-|Hne].
        -- rewrite Nat.sub_diag in Hn. injection Hn as <-. congruence.
        -- exists args. repeat split; [lia|assumption..].
Qed.

Lemma accepted_or_failed (attempts : list Row) : forall x,
  (length (acceptedFrom x attempts) + length (failuresFrom x attempts))%nat
  = length attempts.
Proof.
  induction attempts as [|a rest IH]; intros x; cbn; [reflexivity|].
  specialize (IH (S x)).
  destruct (execute_error engine x a); cbn; lia.
Qed.

(** The warning [prepareTable] gives for a destination with fewer columns. *)
Definition schemaWarnings (destination source : list string) : list string :=
  if (0 <? length destination)%nat then
    if (length destination <? length source)%nat then [lessColumnsWarning] else []
  else [].

Lemma run_ignoring_errors (store : Store) :
  ignoreErrors config = true ->
  beforeImport plugin = true -> getColumns plugin <> [] ->
  (skipTransaction config = true \/ begin_error engine = None) ->
  (st_columns store <> [] \/ forall sql, exec_error engine sql = None) ->
  (skipTransaction config = true \/ commit_error engine = None) ->
  (forall k, interruptedAt k = false) ->
  Forall (fun row => row <> []) (rows plugin) ->
  let s := runFrom store in
  let attempts := map (fun row => boundArgs row (length (targetColumns s))) (rows plugin) in
  outcome (trace s) = Some true /\
  executions (trace s) = length (rows plugin) /\
  inserted (trace s) = acceptedFrom 0 attempts /\
  warnings (trace s)
  = schemaWarnings (st_columns store) (columnsFromPlugin s)
    ++ map failureWarning (failuresFrom 0 attempts).
Proof.
  intros Hig Hb Hc Hbegin Hcreate Hcommit Hint Hrows. cbv zeta.
  destruct (getColumns plugin) as [|cd cds] eqn:Hcols; [congruence|].
  unfold schemaWarnings.
  unfold runFrom, run, snd; exec.
  repeat (first
    [ rewrite Hb | rewrite Hint | rewrite Hcols
    | progress cbn [length map Nat.eqb]
    | branch_with branch_loop ];
    exec).
  all: try match goal with
            | H : false = true |- _ => discriminate H
            | H : true = false |- _ => discriminate H
            end.
  all: try solve [destruct Hbegin as [Hx|Hx]; discriminate Hx].
  all: try solve [destruct Hcommit as [Hx|Hx]; discriminate Hx].
  all: try solve [destruct Hcreate as [Hcreate|Hcreate];
                  [exfalso; apply Hcreate; apply length_zero_iff_nil;
                   match goal with E : (0 <? _)%nat = false |- _ =>
                     apply Nat.ltb_ge in E; lia end
                  |match goal with E : exec_error engine _ = Some _ |- _ =>
                     rewrite Hcreate in E; discriminate E end]].
  all: destruct (HR Hig Hint Hrows eq_refl) as (Hok & Hins & Hwarn & Hex);
       try discriminate Hok.
  all: unfold outcome, executions, occurrences, inserted, warnings in *;
       rewrite <- ?app_assoc;
       cbn [app fold_left signal filter isExecute flat_map length] in *;
       rewrite ?fold_left_app, ?filter_app, ?flat_map_app, ?length_app,
               ?HO, ?Hins, ?Hwarn, ?Hex;
       cbn [app fold_left signal filter isExecute flat_map length];
       rewrite ?app_nil_r, ?Nat.add_0_r.
  all: split; [reflexivity|]; split; [reflexivity|]; split; reflexivity.
Qed.

(** C5.  Let [ignoreErrors] be set, and let nothing but executions fail: the
    plugin is set up and gives columns, the transaction (if any) begins and
    commits, the table exists or is created, nobody interrupts, and the
    plugin gives N rows, none of them empty.  Then the run signals success;
    all N rows are executed; the K executions the engine refuses (the
    failures, each with its position counted from 0 and its error text)
    leave nothing in the database, which holds, durably, the N - K rows
    accepted, in order; and the warnings of the run are, after the one
    [prepareTable] gives for a destination with fewer columns, exactly one
    per failure, in order, each naming the row by its position counted from
    1 and giving the error text. *)
Theorem ignored_errors_become_warnings (store : Store) :
  ignoreErrors config = true ->
  beforeImport plugin = true -> getColumns plugin <> [] ->
  (skipTransaction config = true \/ begin_error engine = None) ->
  (st_columns store <> [] \/ forall sql, exec_error engine sql = None) ->
  (skipTransaction config = true \/ commit_error engine = None) ->
  (forall k, interruptedAt k = false) ->
  Forall (fun row => row <> []) (rows plugin) ->
  let s := runFrom store in
  let attempts := map (fun row => boundArgs row (length (targetColumns s))) (rows plugin) in
  let failures := failuresFrom 0 attempts in
  let accepted := acceptedFrom 0 attempts in
  outcome (trace s) = Some true /\
  executions (trace s) = length (rows plugin) /\
  length accepted = (length (rows plugin) - length failures)%nat /\
  inserted (trace s) = accepted /\
  db s = mkDb (written store s) None /\
  st_rows (durable (db s)) = (if tableCreated s then [] else st_rows store) ++ accepted /\
  warnings (trace s)
  = schemaWarnings (st_columns store) (columnsFromPlugin s) ++ map failureWarning failures /\
  (forall i errText,
     In (i, errText) failures <->
     exists args, nth_error attempts i = Some args /\
                  execute_error engine i args = Some errText) /\
  (forall failure,
     failureWarning failure
     = ("Could not import data row number "
        ++ QString_number (Z.of_nat (fst failure) + 1)
        ++ ". The row was ignored. Problem details: " ++ snd failure)%string).
Proof.
  intros Hig Hb Hc Hbegin Hcreate Hcommit Hint Hrows. cbv zeta.
  destruct (run_ignoring_errors store Hig Hb Hc Hbegin Hcreate Hcommit Hint Hrows)
    as (Hout & Hex & Hins & Hwarn).
  pose proof (run_db store) as Hdb. rewrite Hout in Hdb.
  assert (Hdb' : db (runFrom store) = mkDb (written store (runFrom store)) None)
    by (destruct (skipTransaction config); exact Hdb).
  split; [exact Hout|]. split; [exact Hex|].
  split.
  { pose proof (accepted_or_failed
                  (map (fun row => boundArgs row (length (targetColumns (runFrom store))))
                       (rows plugin)) 0) as H.
    rewrite length_map in H. lia. }
  split; [exact Hins|]. split; [exact Hdb'|].
  split.
  { rewrite Hdb'. cbn [durable]. unfold written.
    rewrite st_rows_addRows, Hins.
    now destruct (tableCreated (runFrom store)). }
  split; [exact Hwarn|]. split.
  - intros i errText. rewrite failuresFrom_spec. rewrite Nat.sub_0_r.
    split; intros (args & H); exists args; intuition lia.
  - intros [i errText]. unfold failureWarning. apply rowWarning_text.
Qed.

(** *** The table-created notification, and a table that exists *)

Definition isCreatedTable (e : Event) : bool :=
  match e with EvCreatedTable _ => true | _ => false end.

Definition isExec (e : Event) : bool :=
  match e with EvExec _ _ _ => true | _ => false end.

Lemma loopEvent_not_createdTable e : loopEvent e = true -> isCreatedTable e = false.
Proof. destruct e; cbn; congruence. Qed.

Lemma loopEvent_not_exec e : loopEvent e = true -> isExec e = false.
Proof. destruct e; cbn; congruence. Qed.

Lemma run_createdTable (store : Store) :
  existsb isCreatedTable (trace (runFrom store)) = true <->
  outcome (trace (runFrom store)) = Some true /\ tableCreated (runFrom store) = true.
Proof.
  run_cases; try discriminate.
  all: norm_trace; cbn [existsb isCreatedTable orb];
       rewrite ?(loop_quiet isCreatedTable _ loopEvent_not_createdTable HL);
       cbn [existsb isCreatedTable orb];
       split; [intros H; try discriminate H; auto | intros [H1 H2]; try discriminate; auto].
Qed.

Definition CreatedLast (e : Event) (post : list Event) : Prop :=
  match e with
  | EvCreatedTable tbl => tbl = table /\ post = [EvAfterImport; EvFinished true]
  | _ => True
  end.

Lemma run_createdTable_last (store : Store) :
  Suffixes CreatedLast (trace (runFrom store)).
Proof.
  unfold CreatedLast.
  run_cases; try discriminate.
  all: trace_suffixes ltac:(apply (loop_suffixes (fun e _ => loopEvent e = true)); [auto|exact HL]).
  all: try (split; reflexivity).
  all: intros [] post; cbn; auto; discriminate.
Qed.

Lemma run_existing (store : Store) :
  st_columns store <> [] ->
  tableCreated (runFrom store) = false /\
  existsb isExec (trace (runFrom store)) = false /\
  existsb isCreatedTable (trace (runFrom store)) = false /\
  Suffixes (fun e _ => match e with
                       | EvGetTableColumns cols => cols = st_columns store
                       | _ => True
                       end) (trace (runFrom store)).
Proof.
  intros Hst.
  run_cases; try discriminate.
  all: try match goal with
           | E : (0 <? length ?l)%nat = false |- _ =>
               exfalso; apply Hst; apply length_zero_iff_nil;
               apply Nat.ltb_ge in E; cbn [st_columns] in *; lia
           end.
  all: split; [reflexivity|].
  all: norm_trace; cbn [existsb isExec isCreatedTable orb];
       rewrite ?(loop_quiet isExec _ loopEvent_not_exec HL),
               ?(loop_quiet isCreatedTable _ loopEvent_not_createdTable HL);
       cbn [existsb isExec isCreatedTable orb].
  all: split; [reflexivity|]; split; [reflexivity|].
  all: trace_suffixes ltac:(apply (loop_suffixes (fun e _ => loopEvent e = true)); [auto|exact HL]).
  all: intros [] post; cbn; auto; discriminate.
Qed.

Lemma run_keeps_columns (store : Store) :
  tableCreated (runFrom store) = false ->
  st_columns (durable (db (runFrom store))) = st_columns store.
Proof.
  intros Hc. rewrite run_db. unfold written. rewrite Hc.
  destruct (skipTransaction config);
    [|destruct (outcome (trace (runFrom store))) as [[|]|]];
    cbn [durable]; rewrite ?st_columns_addRows; reflexivity.
Qed.

(** *** The empty row *)

Lemma importRows_stops_at_empty colCount (before after : list Row) :
  forall rowCnt s,
  importRows colCount rowCnt (before ++ [] :: after) s
  = importRows colCount rowCnt before s.
Proof.
  induction before as [|row before IH]; intros rowCnt s; cbn [app importRows].
  - reflexivity.
  - unfold bind at 1 3.
    destruct (emit (EvNext row) s) as [u s0].
    destruct (0 <? length row)%nat; [|reflexivity].
    unfold bind.
    destruct (importRow colCount rowCnt row s0) as [[|] s1]; [apply IH|reflexivity].
Qed.

Lemma run_after_empty_row (store : Store) (pre post : list Event) :
  trace (runFrom store) = pre ++ EvNext [] :: post ->
  post = commitPhase (tableCreated (runFrom store)).
Proof.
  intros Ht.
  exact (proj1 (Suffixes_spec _ _) (run_stops store) _ _ _ Ht).
Qed.

(** ** Further properties of the worker *)

(** *** More about the insertion loop *)

Definition isNotifyError (e : Event) : bool :=
  match e with EvNotifyError _ => true | _ => false end.

(** The values of the successive executions, accepted or not. *)
Definition attempted (t : list Event) : list Row :=
  flat_map (fun e => match e with EvExecute args _ => [args] | _ => [] end) t.

(** The rows of a stream that come before its first empty row. *)
Fixpoint untilEmpty (stream : list Row) : list Row :=
  match stream with
  | [] => []
  | row :: rest => if (0 <? length row)%nat then row :: untilEmpty rest else []
  end.

(** Inside the loop, an error notification is followed by the rest of
    [error] and nothing else. *)
Definition ErrorTail (e : Event) (post : list Event) : Prop :=
  match e with
  | EvNotifyError _ => post = [EvAfterImport; EvFinished false]
  | _ => True
  end.

Lemma attempted_app (a b : list Event) : attempted (a ++ b) = attempted a ++ attempted b.
Proof. unfold attempted. now rewrite flat_map_app. Qed.

Definition RowMore (colCount : nat) (rowCnt : Z) (row : Row) (go : bool)
           (evs : list Event) : Prop :=
  occurrences isNotifyError evs = (if go then 0 else 1)%nat /\
  Suffixes ErrorTail evs /\
  attempted evs = [boundArgs row colCount] /\
  executions evs = 1%nat /\
  (occurrences isPoll evs <= if (Z.rem rowCnt 100 =? 0)%Z then 1 else 0)%nat /\
  (go = true -> occurrences isPoll evs = if (Z.rem rowCnt 100 =? 0)%Z then 1 else 0)%nat /\
  (ignoreErrors config = false -> go = true -> inserted evs = attempted evs) /\
  (ignoreErrors config = false -> warnings evs = []).

Definition LoopMore (colCount : nat) (rowCnt : Z) (stream : list Row) (ok : bool)
           (evs : list Event) : Prop :=
  (ignoreErrors config = false -> ok = true -> inserted evs = attempted evs) /\
  (ignoreErrors config = false -> warnings evs = []) /\
  occurrences isNotifyError evs = (if ok then 0 else 1)%nat /\
  Suffixes ErrorTail evs /\
  attempted evs
  = map (fun row => boundArgs row colCount) (firstn (executions evs) (untilEmpty stream)) /\
  (executions evs <= length (untilEmpty stream))%nat /\
  (ok = true -> executions evs = length (untilEmpty stream)) /\
  (forall n : nat, rowCnt = Z.of_nat n ->
     (occurrences isPoll evs + pollIndex n <= pollIndex (n + executions evs))%nat /\
     (ok = true ->
      (occurrences isPoll evs + pollIndex n)%nat = pollIndex (n + executions evs))).

Lemma importRow_more colCount rowCnt row s go s' :
  importRow colCount rowCnt row s = (go, s') ->
  exists evs, Extends s s' evs /\ RowMore colCount rowCnt row go evs.
Proof.
  destruct s. exec. repeat (branch_run; exec).
  all: intros H; injection H as <- <-.
  all: extends_now.
  all: unfold RowMore, ErrorTail, executions, occurrences; cbn.
  all: repeat match goal with
              | H : (Z.rem _ _ =? _)%Z = _ |- _ => rewrite H; clear H
              end.
  all: repeat split; auto; intros;
       repeat match goal with
              | H : ignoreErrors config = true, H' : ignoreErrors config = false |- _ =>
                  rewrite H in H'; discriminate H'
              end;
       try discriminate; try reflexivity; lia.
Qed.

Lemma absent_suffixes (p : Event -> bool) (t : list Event) :
  occurrences p t = 0%nat -> Suffixes (fun e _ => p e = false) t.
Proof.
  induction t as [|e t IH]; [intros _; exact I|].
  rewrite occurrences_cons. cbn [Suffixes].
  destruct (p e); [discriminate|]. auto.
Qed.

Lemma pollIndex_step (n : nat) :
  pollIndex (S n) = ((if (n mod 100 =? 0)%nat then 1 else 0) + pollIndex n)%nat.
Proof.
  destruct (Nat.eqb_spec (n mod 100) 0) as [H|H].
  - now rewrite (proj1 (proj2 (poll_step_polled n H))).
  - now rewrite (proj1 (poll_step_quiet n H)).
Qed.

Lemma importRows_more colCount stream : forall rowCnt s ok s',
  importRows colCount rowCnt stream s = (ok, s') ->
  exists evs, trace s' = trace s ++ evs /\ LoopMore colCount rowCnt stream ok evs.
Proof.
  induction stream as [|row rest IH]; intros rowCnt s ok s' H;
    cbn [importRows untilEmpty] in *.
  - injection H as <- <-. exists [EvNext []]. split; [reflexivity|].
    unfold LoopMore. cbn.
    repeat split; auto; intros; rewrite ?Nat.add_0_r; try reflexivity; lia.
  - unfold bind at 1 in H. unfold emit at 1, modify in H.
    destruct (0 <? length row)%nat eqn:Hrow0.
    + unfold bind at 1 in H.
      destruct (importRow _ _ _ _) as [go s1] eqn:Hrow.
      apply importRow_more in Hrow as (ev1 & E1 & N1 & S1 & A1 & X1 & P1 & Q1 & I1 & W1).
      destruct E1 as (_ & _ & _ & _ & _ & T1 & _). cbn [trace] in T1.
      destruct go.
      * apply IH in H as (ev2 & T2 & I2 & W2 & N2 & S2 & A2 & L2 & X2 & P2).
        exists ([EvNext row] ++ ev1 ++ ev2). split.
        { rewrite T2, T1. now rewrite <- !app_assoc. }
        unfold LoopMore. split.
        { intros Hig Hok.
          now rewrite !inserted_app, !attempted_app, (I1 Hig eq_refl), (I2 Hig Hok). }
        split.
        { intros Hig. now rewrite !warnings_app, (W1 Hig), (W2 Hig). }
        unfold executions in *. cbn [untilEmpty]. rewrite Hrow0.
        rewrite !occurrences_app, !attempted_app, N1, N2, A1, A2, X1.
        cbn [occurrences filter isNotifyError isExecute isPoll length attempted flat_map
             app Nat.add firstn map].
        split; [reflexivity|]. split.
        { cbn [app Suffixes ErrorTail]. split; [exact I|].
          eapply Suffixes_app; [exact (absent_suffixes _ _ N1)| |exact S2].
          intros [] post; cbn; auto. discriminate. }
        split; [reflexivity|]. split; [lia|]. split; [intros Hok; rewrite X2; auto|].
        intros n ->. destruct (P2 (S n)) as [Hle Heq]; [lia|].
        rewrite (Q1 eq_refl), rem_100_nat.
        replace (n + S (occurrences isExecute ev2))%nat
          with (S n + occurrences isExecute ev2)%nat by lia.
        rewrite pollIndex_step in Hle, Heq.
        split; [lia|]. intros Hok. specialize (Heq Hok). lia.
      * injection H as <- <-. exists ([EvNext row] ++ ev1). split.
        { rewrite T1. now rewrite <- !app_assoc. }
        unfold LoopMore. split; [discriminate|]. split.
        { intros Hig. now rewrite !warnings_app, (W1 Hig). }
        unfold executions in *. cbn [untilEmpty]. rewrite Hrow0.
        rewrite !occurrences_app, !attempted_app, N1, A1, X1.
        cbn [occurrences filter isNotifyError isExecute isPoll length attempted flat_map
             app Nat.add firstn map].
        split; [reflexivity|]. split.
        { cbn [app Suffixes ErrorTail]. split; [exact I|exact S1]. }
        split; [reflexivity|]. split; [lia|]. split; [discriminate|].
        intros n ->. rewrite rem_100_nat in P1.
        replace (n + 1)%nat with (S n) by lia.
        rewrite pollIndex_step. split; [lia|discriminate].
    + injection H as <- <-. exists [EvNext row]. split; [reflexivity|].
      unfold LoopMore. cbn [untilEmpty]. rewrite Hrow0. cbn.
      repeat split; auto; intros; rewrite ?Nat.add_0_r; try reflexivity; lia.
Qed.

Lemma importRows_more_at colCount stream rowCnt s ok s' :
  importRows colCount rowCnt stream s = (ok, s') ->
  forall evs, trace s' = trace s ++ evs -> LoopMore colCount rowCnt stream ok evs.
Proof.
  intros H evs Ht. apply importRows_more in H as (evs' & Ht' & HM).
  rewrite Ht' in Ht. apply app_inv_head in Ht. now subst.
Qed.

(** The symbolic execution of [run] with both sets of facts about the loop. *)
Ltac branch_more c r st s :=
  let E := fresh "E" in
  destruct (importRows c r st s) as [[|] [? ? ? ? ? ? ? ?]] eqn:E;
  let HM := fresh "HM" in
  pose proof (importRows_more_at _ _ _ _ _ _ E) as HM;
  use_loop E; specialize (HM _ eq_refl);
  let HMn := fresh "HMn" in let HMs := fresh "HMs" in let HMa := fresh "HMa" in
  let HMl := fresh "HMl" in let HMx := fresh "HMx" in let HMp := fresh "HMp" in
  let HMi := fresh "HMi" in let HMw := fresh "HMw" in
  destruct HM as (HMi & HMw & HMn & HMs & HMa & HMl & HMx & HMp);
  specialize (HMp 0%nat eq_refl).

Ltac run_more :=
  unfold runFrom, run, snd; exec; repeat (branch_with branch_more; exec).

(** *** The one error of a failed run *)

Definition ErrorEnds (begun : bool) (e : Event) (post : list Event) : Prop :=
  match e with
  | EvNotifyError _ =>
      post = [EvAfterImport; EvFinished false] ++ (if begun then [EvRollback] else [])
  | _ => True
  end.

Lemma run_error_ends (store : Store) :
  Suffixes (ErrorEnds (existsb isBegun (trace (runFrom store)))) (trace (runFrom store)).
Proof.
  unfold ErrorEnds.
  run_more; try discriminate.
  all: norm_trace; loop_counts HL; cbn [existsb isBegun orb].
  all: trace_suffixes ltac:(first [exact (absent_suffixes _ _ HMn) | exact HMs]).
  all: try (intros [] post; cbn; auto; first [discriminate | intros ->; reflexivity]).
Qed.

Lemma run_error_count (store : Store) :
  occurrences isNotifyError (trace (runFrom store))
  = match outcome (trace (runFrom store)) with
    | Some true => 0
    | _ => if beforeImport plugin then 1 else 0
    end%nat.
Proof.
  run_more; try discriminate.
  all: norm_trace; rewrite ?occurrences_cons; norm_trace; rewrite ?HMn;
       cbn [isNotifyError occurrences filter length Nat.add]; reflexivity.
Qed.

(** X7.  A run notifies at most one error: none when it signals success or
    when the plugin refused to start, exactly one in every other run.  The
    notification is followed by the plugin's [afterImport], [finished(false)]
    and, when the transaction had been opened, its rollback, and by nothing
    else. *)
Theorem run_reports_one_error (store : Store) :
  let t := trace (runFrom store) in
  occurrences isNotifyError t
  = match outcome t with
    | Some true => 0
    | _ => if beforeImport plugin then 1 else 0
    end%nat /\
  (forall pre msg post, t = pre ++ EvNotifyError msg :: post ->
     post = [EvAfterImport; EvFinished false]
            ++ (if existsb isBegun pre then [EvRollback] else [])).
Proof.
  cbv zeta. split; [apply run_error_count|].
  intros pre msg post Ht.
  pose proof (proj1 (Suffixes_spec _ _) (run_error_ends store) _ _ _ Ht) as H.
  cbn [ErrorEnds] in H. rewrite Ht in H.
  rewrite existsb_app in H. cbn [existsb isBegun orb] in H.
  destruct (existsb isBegun pre); cbn [orb] in H; [exact H|].
  destruct (existsb isBegun post) eqn:Hp; [|exact H].
  rewrite H in Hp. discriminate Hp.
Qed.

(** *** The rows a run executes *)

Lemma attempted_cons (e : Event) (t : list Event) :
  attempted (e :: t)
  = match e with EvExecute args _ => [args] | _ => [] end ++ attempted t.
Proof. reflexivity. Qed.

Lemma run_attempts (store : Store) :
  let s := runFrom store in
  attempted (trace s)
  = map (fun row => boundArgs row (length (targetColumns s)))
        (firstn (executions (trace s)) (untilEmpty (rows plugin))) /\
  (executions (trace s) <= length (untilEmpty (rows plugin)))%nat /\
  (outcome (trace s) = Some true ->
   executions (trace s) = length (untilEmpty (rows plugin))).
Proof.
  cbv zeta.
  run_more; try discriminate.
  all: norm_trace; unfold executions in *;
       repeat first [ rewrite attempted_cons | rewrite attempted_app
                    | rewrite occurrences_cons | rewrite occurrences_app ];
       change (attempted []) with (@nil Row);
       change (occurrences isExecute []) with 0%nat;
       cbn [app isExecute Nat.add firstn map];
       rewrite ?app_nil_r, ?Nat.add_0_r.
  all: split; [first [exact HMa | reflexivity]|];
       split; [first [exact HMl | lia]|];
       intros Hout; first [discriminate Hout | exact (HMx eq_refl) | reflexivity].
Qed.

Lemma untilEmpty_spec (stream : list Row) :
  Forall (fun row => row <> []) (untilEmpty stream) /\
  (stream = untilEmpty stream \/
   exists rest, stream = untilEmpty stream ++ [] :: rest).
Proof.
  induction stream as [|row rest [IHa IHb]]; cbn [untilEmpty]; [auto|].
  destruct row as [|v row]; cbn [length Nat.ltb Nat.leb].
  - split; [constructor|]. right. now exists rest.
  - split; [constructor; [discriminate|assumption]|].
    destruct IHb as [IHb|[rest' IHb]]; [left|right; exists rest'];
      cbn [app]; congruence.
Qed.

(** X11.  The statement is executed for the rows of the plugin in the order
    the plugin gives them, none skipped and none twice: the values of the
    successive executions are those bound for the first rows of the stream,
    as many as there were executions, and no row at or after the first empty
    one is executed.  A run that signals success has executed every row that
    comes before the first empty one. *)
Theorem rows_executed_in_order (store : Store) :
  let s := runFrom store in
  let t := trace s in
  let expected := map (fun row => boundArgs row (length (targetColumns s)))
                      (untilEmpty (rows plugin)) in
  attempted t = firstn (executions t) expected /\
  (executions t <= length expected)%nat /\
  (outcome t = Some true -> attempted t = expected) /\
  Forall (fun row => row <> []) (untilEmpty (rows plugin)) /\
  (rows plugin = untilEmpty (rows plugin) \/
   exists rest, rows plugin = untilEmpty (rows plugin) ++ [] :: rest).
Proof.
  cbv zeta. destruct (run_attempts store) as (Ha & Hl & Hx).
  rewrite firstn_map, length_map.
  split; [exact Ha|]. split; [exact Hl|]. split; [|apply untilEmpty_spec].
  intros Hout. rewrite Ha, (Hx Hout), firstn_all. reflexivity.
Qed.

(** *** How often the flag is read *)

Lemma run_polls (store : Store) :
  let s := runFrom store in
  polls s = occurrences isPoll (trace s) /\
  (occurrences isPoll (trace s) <= pollIndex (executions (trace s)))%nat /\
  (outcome (trace s) = Some true ->
   occurrences isPoll (trace s) = pollIndex (executions (trace s))).
Proof.
  cbv zeta.
  run_more; try discriminate.
  all: norm_trace; unfold executions in *;
       repeat first [ rewrite occurrences_cons | rewrite occurrences_app ];
       change (occurrences isExecute []) with 0%nat;
       change (occurrences isPoll []) with 0%nat;
       cbn [isExecute isPoll Nat.add] in *;
       rewrite ?Nat.add_0_r;
       change (pollIndex 0) with 1%nat in *.
  all: split; [lia|]; split; [lia|];
       intros Hout; first [discriminate Hout | lia].
Qed.

(** X12.  The interruption flag is read at most [1 + ceil(N / 100)] times in
    a run that makes N executions, and exactly that often in a run that
    signals success: once after the reconciliation and once per started
    hundred of rows. *)
Theorem run_poll_count (store : Store) :
  let t := trace (runFrom store) in
  (occurrences isPoll t <= S ((executions t + 99) / 100))%nat /\
  (outcome t = Some true -> occurrences isPoll t = S ((executions t + 99) / 100)).
Proof. exact (proj2 (run_polls store)). Qed.

(** *** Statements and the transaction *)

(** The calls that read or write the database. *)
Definition isStatement (e : Event) : bool :=
  match e with
  | EvGetTableColumns _ | EvExec _ _ _ | EvPrepare _ _ | EvExecute _ _ => true
  | _ => false
  end.

Inductive Phase : Type := Before | Open | Closed.

(** A trace is bracketed when the transaction is begun at most once, every
    statement comes while it is open, only an open transaction is committed
    or rolled back, and it is not left open. *)
Fixpoint bracketed (phase : Phase) (t : list Event) : bool :=
  match t with
  | [] => match phase with Open => false | _ => true end
  | e :: rest =>
      if isBegun e then
        match phase with Before => bracketed Open rest | _ => false end
      else if isCommitted e || isRollback e then
        match phase with Open => bracketed Closed rest | _ => false end
      else if isStatement e then
        match phase with Open => bracketed Open rest | _ => false end
      else bracketed phase rest
  end.

Lemma loop_bracketed (evs tail : list Event) :
  forallb loopEvent evs = true ->
  bracketed Open (evs ++ tail) = bracketed Open tail.
Proof.
  induction evs as [|e evs IH]; [reflexivity|].
  cbn [forallb]. intros H. apply andb_prop in H as [He Hevs].
  cbn [app bracketed]. rewrite (loopEvent_not_begun e He).
  rewrite (loopEvent_not_committed e He), (loopEvent_not_rollback e He).
  cbn [orb]. destruct (isStatement e); auto.
Qed.

Lemma run_bracketed (store : Store) :
  skipTransaction config = false ->
  bracketed Before (trace (runFrom store)) = true.
Proof.
  intros Htx. run_cases; try congruence.
  all: rewrite <- ?app_assoc;
       cbn [app bracketed isBegun isCommitted isRollback isStatement orb];
       rewrite ?(loop_bracketed _ _ HL);
       cbn [app bracketed isBegun isCommitted isRollback isStatement orb];
       reflexivity.
Qed.

Lemma bracketed_spec (pre : list Event) : forall phase t e post,
  bracketed phase t = true -> t = pre ++ e :: post -> isStatement e = true ->
  occurrences isBegun pre = match phase with Before => 1 | _ => 0 end%nat /\
  phase <> Closed /\
  occurrences isCommitted pre = 0%nat /\ occurrences isRollback pre = 0%nat.
Proof.
  induction pre as [|x pre IH]; intros phase t e post H -> He; cbn [app bracketed] in H.
  - destruct e; try discriminate He; cbn in H; destruct phase; try discriminate H;
      repeat split; discriminate.
  - rewrite !occurrences_cons.
    destruct (isBegun x) eqn:Hb.
    + destruct phase; try discriminate H.
      destruct (IH _ _ _ _ H eq_refl He) as (B & _ & C & R).
      destruct x as [| |[|]| | | | | | | | | | | | | |]; try discriminate Hb.
      cbn [isCommitted isRollback]. rewrite B, C, R. repeat split; discriminate.
    + destruct (isCommitted x || isRollback x) eqn:Hc.
      * destruct phase; try discriminate H.
        destruct (IH _ _ _ _ H eq_refl He) as (_ & Hne & _). now elim Hne.
      * apply orb_false_elim in Hc as [Hc Hr]. rewrite Hc, Hr.
        assert (H' : bracketed phase (pre ++ e :: post) = true).
        { destruct (isStatement x); [|exact H].
          destruct phase; try discriminate H. exact H. }
        destruct (IH _ _ _ _ H' eq_refl He) as (B & Hne & C & R).
        rewrite B, C, R. repeat split; auto.
Qed.

Lemma bracketed_balance (t : list Event) : forall phase,
  bracketed phase t = true ->
  (occurrences isBegun t + match phase with Open => 1 | _ => 0 end
   = occurrences isCommitted t + occurrences isRollback t)%nat /\
  (occurrences isBegun t <= match phase with Before => 1 | _ => 0 end)%nat.
Proof.
  induction t as [|x t IH]; intros phase H; cbn [bracketed] in H.
  - destruct phase; try discriminate H; cbn; lia.
  - rewrite !occurrences_cons.
    destruct (isBegun x) eqn:Hb.
    + destruct phase; try discriminate H.
      destruct x as [| |[|]| | | | | | | | | | | | | |]; try discriminate Hb.
      cbn [isCommitted isRollback]. destruct (IH _ H). lia.
    + destruct (isCommitted x) eqn:Hc; cbn [orb] in H.
      * destruct phase; try discriminate H.
        destruct x as [| | | | | | | | |[|]| | | | | | |]; try discriminate Hc.
        cbn [isRollback]. destruct (IH _ H). lia.
      * destruct (isRollback x) eqn:Hr.
        -- destruct phase; try discriminate H. destruct (IH _ H). lia.
        -- assert (H' : bracketed phase t = true).
           { destruct (isStatement x); [|exact H].
             destruct phase; try discriminate H. exact H. }
           destruct (IH _ H'). lia.
Qed.

(** X9.  In a run inside a transaction ([skipTransaction] false) the
    database is read and written only while the transaction is open: before
    every statement (the listing of the table's columns, CREATE TABLE, the
    preparation and every execution of the INSERT) the transaction has been
    begun, once, and neither committed nor rolled back.  The transaction is
    begun at most once and never left open: a successful [begin] is matched
    by one commit or one rollback. *)
Theorem statements_run_inside_the_transaction (store : Store) :
  skipTransaction config = false ->
  let t := trace (runFrom store) in
  (forall pre e post, t = pre ++ e :: post -> isStatement e = true ->
     occurrences isBegun pre = 1%nat /\
     occurrences isCommitted pre = 0%nat /\ occurrences isRollback pre = 0%nat) /\
  (occurrences isBegun t <= 1)%nat /\
  occurrences isBegun t = (occurrences isCommitted t + occurrences isRollback t)%nat.
Proof.
  intros Htx. cbv zeta. pose proof (run_bracketed store Htx) as H.
  split.
  - intros pre e post Ht He.
    destruct (bracketed_spec pre _ _ _ _ H Ht He) as (B & _ & C & R). auto.
  - destruct (bracketed_balance _ _ H). lia.
Qed.

(** *** A run without a transaction *)

Definition isTransactionCall (e : Event) : bool :=
  match e with EvBegin _ | EvCommit _ | EvRollback => true | _ => false end.

Lemma loopEvent_not_transactionCall e :
  loopEvent e = true -> isTransactionCall e = false.
Proof. destruct e; cbn; congruence. Qed.

Lemma run_no_transaction_calls (store : Store) :
  skipTransaction config = true ->
  occurrences isTransactionCall (trace (runFrom store)) = 0%nat.
Proof.
  intros Htx. run_cases; try congruence.
  all: norm_trace; rewrite ?occurrences_cons; norm_trace;
       rewrite ?(loop_silent isTransactionCall _ loopEvent_not_transactionCall HL);
       reflexivity.
Qed.

Lemma absent_In (p : Event -> bool) (t : list Event) :
  occurrences p t = 0%nat -> forall e, In e t -> p e = false.
Proof.
  intros H e Hin. apply in_split in Hin as (pre & post & ->).
  exact (proj1 (Suffixes_spec _ _) (absent_suffixes p _ H) _ _ _ eq_refl).
Qed.

(** X8.  A run without a transaction ([skipTransaction] set) never calls
    [begin], [commit] or [rollback], and whatever its outcome the database
    keeps, at once, what the statements that succeeded wrote: the table if
    the run created it and every row whose execution was accepted, also when
    the run fails or is interrupted later on. *)
Theorem run_without_transaction (store : Store) :
  skipTransaction config = true ->
  let s := runFrom store in
  (forall e, In e (trace s) -> isTransactionCall e = false) /\
  db s = mkDb (written store s) None /\
  st_columns (durable (db s))
  = (if tableCreated s then columnsFromPlugin s else st_columns store) /\
  st_rows (durable (db s))
  = (if tableCreated s then [] else st_rows store) ++ inserted (trace s).
Proof.
  intros Htx. cbv zeta.
  pose proof (run_db store) as Hdb. rewrite Htx in Hdb.
  split; [apply absent_In, run_no_transaction_calls, Htx|].
  split; [exact Hdb|]. rewrite Hdb. cbn [durable]. unfold written.
  rewrite st_columns_addRows, st_rows_addRows.
  destruct (tableCreated (runFrom store)); split; reflexivity.
Qed.

(** *** The columns of the plugin *)

Definition isGetColumns (e : Event) : bool :=
  match e with EvGetColumns => true | _ => false end.

Lemma loopEvent_not_getColumns e : loopEvent e = true -> isGetColumns e = false.
Proof. destruct e; cbn; congruence. Qed.

(** X1.  [readPluginColumns] appends the names and the declared types of the
    plugin's column definitions, in their order, to the two member lists and
    touches nothing else: lists of equal length stay of equal length, and a
    second call adds the columns a second time (the members are not
    cleared). *)
Theorem readPluginColumns_appends (s : State) :
  let names := map fst (getColumns plugin) in
  let types := map snd (getColumns plugin) in
  let s1 := snd (readPluginColumns s) in
  let s2 := snd (readPluginColumns s1) in
  s1 = mkState (columnsFromPlugin s ++ names) (columnTypesFromPlugin s ++ types)
               (tableColumns s) (targetColumns s) (tableCreated s) (db s) (polls s)
               (trace s ++ [EvGetColumns]) /\
  (length (columnsFromPlugin s) = length (columnTypesFromPlugin s) ->
   length (columnsFromPlugin s1) = length (columnTypesFromPlugin s1)) /\
  length (columnsFromPlugin s1)
  = (length (columnsFromPlugin s) + length (getColumns plugin))%nat /\
  columnsFromPlugin s2 = columnsFromPlugin s ++ names ++ names /\
  columnTypesFromPlugin s2 = columnTypesFromPlugin s ++ types ++ types.
Proof.
  cbv zeta. rewrite !readPluginColumns_eq. cbn [snd columnsFromPlugin columnTypesFromPlugin].
  rewrite !length_app, !length_map, <- !app_assoc.
  repeat split. intros H. now rewrite H.
Qed.

Lemma run_columns (store : Store) :
  let s := runFrom store in
  occurrences isGetColumns (trace s) = (if beforeImport plugin then 1 else 0)%nat /\
  columnsFromPlugin s = (if beforeImport plugin then map fst (getColumns plugin) else []) /\
  columnTypesFromPlugin s
  = (if beforeImport plugin then map snd (getColumns plugin) else []) /\
  firstn 2 (trace s)
  = (if beforeImport plugin then [EvBeforeImport true; EvGetColumns]
     else [EvBeforeImport false; EvFinished false]).
Proof.
  cbv zeta. run_cases; try discriminate.
  all: norm_trace; rewrite ?occurrences_cons; norm_trace;
       rewrite ?(loop_silent isGetColumns _ loopEvent_not_getColumns HL);
       cbn [isGetColumns occurrences filter length Nat.add firstn];
       repeat split.
Qed.

(** X2.  A run asks the plugin for its columns exactly once, right after
    [beforeImport] has returned true, and never when it has returned false.
    From then on the worker holds the names and the declared types of the
    plugin's column definitions, in their order: as many types as names, so
    that the type read for the i-th column of CREATE TABLE is the one the
    plugin declared for it. *)
Theorem run_reads_columns_once (store : Store) :
  let s := runFrom store in
  occurrences isGetColumns (trace s) = (if beforeImport plugin then 1 else 0)%nat /\
  firstn 2 (trace s)
  = (if beforeImport plugin then [EvBeforeImport true; EvGetColumns]
     else [EvBeforeImport false; EvFinished false]) /\
  columnsFromPlugin s = (if beforeImport plugin then map fst (getColumns plugin) else []) /\
  columnTypesFromPlugin s
  = (if beforeImport plugin then map snd (getColumns plugin) else []) /\
  length (columnTypesFromPlugin s) = length (columnsFromPlugin s) /\
  (forall i, (i < length (columnsFromPlugin s))%nat ->
     nth_error (columnsFromPlugin s) i = option_map fst (nth_error (getColumns plugin) i) /\
     nth_error (columnTypesFromPlugin s) i
     = option_map snd (nth_error (getColumns plugin) i)).
Proof.
  cbv zeta. destruct (run_columns store) as (Hn & Hc & Ht & Hf).
  split; [exact Hn|]. split; [exact Hf|]. split; [exact Hc|]. split; [exact Ht|].
  rewrite Hc, Ht. destruct (beforeImport plugin).
  - rewrite !length_map. split; [reflexivity|].
    intros i _. now rewrite !nth_error_map.
  - split; [reflexivity|]. intros i Hi. cbn in Hi. lia.
Qed.

(** *** The runs that end before the table is prepared *)

Definition beginError (errText : string) : string :=
  arg (tr "Could not start transaction in order to import a data: %1") [errText].

Definition createError (errText : string) : string :=
  arg (tr "Could not create table to import to: %1") [errText].

Transparent arg.

Lemma beginError_text (errText : string) :
  beginError errText
  = ("Could not start transaction in order to import a data: " ++ errText)%string.
Proof. unfold beginError, tr. cbv -[append]. now rewrite append_empty_r. Qed.

Lemma createError_text (errText : string) :
  createError errText = ("Could not create table to import to: " ++ errText)%string.
Proof. unfold createError, tr. cbv -[append]. now rewrite append_empty_r. Qed.

Lemma createSql_text (names types : list string) :
  createSql names types
  = ("CREATE TABLE " ++ wrapObjIfNeeded table (getDialect engine) ++ " ("
     ++ join ", " (colDefs names types (getDialect engine)) ++ ")")%string.
Proof.
  unfold createSql, ddl.
  generalize (join ", " (colDefs names types (getDialect engine))).
  generalize (wrapObjIfNeeded table (getDialect engine)).
  intros a b. cbv -[append]. reflexivity.
Qed.

Opaque arg.

(** X3.  When the plugin has started but gives no column, the run notifies
    the "No columns provided" error, calls [afterImport], emits
    [finished(false)] and does nothing else: the database is not called at
    all, not even to open a transaction. *)
Theorem run_without_columns (store : Store) :
  beforeImport plugin = true -> getColumns plugin = [] ->
  trace (runFrom store)
  = [EvBeforeImport true; EvGetColumns;
     EvNotifyError "No columns provided by the import plugin.";
     EvAfterImport; EvFinished false] /\
  db (runFrom store) = mkDb store None.
Proof.
  intros Hb Hc. unfold runFrom, run, snd; exec.
  rewrite Hb; exec. rewrite readPluginColumns_eq; exec. rewrite Hc; exec.
  cbn. split; reflexivity.
Qed.

(** X4.  When the transaction cannot be begun, the run notifies the "Could
    not start transaction" error with the error text of the database, calls
    [afterImport], emits [finished(false)] and stops: no statement is given
    to the database and no rollback is called, as no transaction is open. *)
Theorem run_begin_failure (store : Store) (errText : string) :
  beforeImport plugin = true -> getColumns plugin <> [] ->
  skipTransaction config = false -> begin_error engine = Some errText ->
  trace (runFrom store)
  = [EvBeforeImport true; EvGetColumns; EvBegin false;
     EvNotifyError (beginError errText); EvAfterImport; EvFinished false] /\
  beginError errText
  = ("Could not start transaction in order to import a data: " ++ errText)%string /\
  db (runFrom store) = mkDb store None.
Proof.
  intros Hb Hc Htx Hbegin. unfold beginError.
  destruct (getColumns plugin) as [|cd cds] eqn:Hcols; [congruence|].
  unfold runFrom, run, snd; exec.
  rewrite Hb; exec. rewrite readPluginColumns_eq; exec. rewrite Hcols; exec.
  cbn [map app length Nat.eqb]. rewrite Htx; exec. rewrite Hbegin; exec.
  cbn [errorText]. split; [reflexivity|]. split; [|reflexivity].
  apply beginError_text.
Qed.

(** *** CREATE TABLE *)

Definition isExecFailed (e : Event) : bool :=
  match e with EvExec _ _ (Some _) => true | _ => false end.

Definition isExecDone (e : Event) : bool :=
  match e with EvExec _ _ None => true | _ => false end.

Lemma loopEvent_not_execFailed e : loopEvent e = true -> isExecFailed e = false.
Proof. destruct e; cbn; congruence. Qed.

Lemma loopEvent_not_execDone e : loopEvent e = true -> isExecDone e = false.
Proof. destruct e; cbn; congruence. Qed.

Definition ExecFailed (e : Event) (post : list Event) : Prop :=
  match e with
  | EvExec _ _ (Some errText) =>
      post = [EvNotifyError (createError errText); EvAfterImport; EvFinished false]
             ++ rollbackIfTransaction
  | _ => True
  end.

Lemma run_exec_failed (store : Store) : Suffixes ExecFailed (trace (runFrom store)).
Proof.
  unfold ExecFailed, createError, rollbackIfTransaction.
  run_cases; try discriminate.
  all: trace_suffixes ltac:(apply (loop_suffixes (fun e _ => loopEvent e = true)); [auto|exact HL]).
  all: intros [] post; cbn; auto; discriminate.
Qed.

Lemma run_after_exec_failed (store : Store) :
  existsb isExecFailed (trace (runFrom store)) = true ->
  tableCreated (runFrom store) = false /\
  occurrences isPoll (trace (runFrom store)) = 0%nat /\
  occurrences isStatement (trace (runFrom store)) = 2%nat /\
  outcome (trace (runFrom store)) = Some false /\
  db (runFrom store) = mkDb store None.
Proof.
  run_cases; try discriminate.
  all: norm_trace; cbn [existsb isExecFailed orb];
       rewrite ?(loop_quiet isExecFailed _ loopEvent_not_execFailed HL);
       cbn [existsb isExecFailed orb]; try discriminate; intros _.
  all: repeat split.
Qed.

(** The CREATE TABLE statement of a run is built from the columns of the
    plugin, and given to the database only when the table has no column. *)
Definition CreateStatement (store : Store) (e : Event) (post : list Event) : Prop :=
  match e with
  | EvExec sql flags err =>
      sql = createSql (map fst (getColumns plugin)) (map snd (getColumns plugin)) /\
      flags = createFlags /\ err = exec_error engine sql /\ st_columns store = []
  | _ => True
  end.

Lemma run_create_statement (store : Store) :
  Suffixes (CreateStatement store) (trace (runFrom store)).
Proof.
  unfold CreateStatement, createSql, createFlags.
  run_cases; try discriminate.
  all: trace_suffixes ltac:(apply (loop_suffixes (fun e _ => loopEvent e = true)); [auto|exact HL]).
  all: try (intros [] post; cbn; auto; discriminate).
  all: try match goal with
           | E : (0 <? length ?l)%nat = false |- ?l = [] =>
               apply length_zero_iff_nil; apply Nat.ltb_ge in E; lia
           end.
  all: try (symmetry; assumption).
Qed.

Lemma run_created (store : Store) :
  (occurrences isExec (trace (runFrom store)) <= 1)%nat /\
  existsb isExecDone (trace (runFrom store)) = tableCreated (runFrom store).
Proof.
  run_cases; try discriminate.
  all: norm_trace; rewrite ?occurrences_cons; norm_trace;
       cbn [existsb isExecDone isExec orb];
       rewrite ?(loop_silent isExec _ loopEvent_not_exec HL),
               ?(loop_quiet isExecDone _ loopEvent_not_execDone HL);
       cbn [existsb isExecDone isExec orb occurrences filter length Nat.add];
       split; first [lia | reflexivity].
Qed.

(** X5.  A CREATE TABLE that the database refuses ends the run: it is
    followed by the "Could not create table" error carrying the error text
    of the database, [afterImport], [finished(false)] and, in a transaction,
    the rollback, and by nothing else.  In such a run the interruption flag
    is never read, [tableCreated] stays false, no INSERT is prepared (the
    listing of the columns and the CREATE TABLE are the only statements) and
    the database is left as the run found it. *)
Theorem refused_create_ends_run (store : Store) (pre post : list Event)
        (sql : string) (flags : list Flag) (errText : string) :
  trace (runFrom store) = pre ++ EvExec sql flags (Some errText) :: post ->
  post = [EvNotifyError (createError errText); EvAfterImport; EvFinished false]
         ++ rollbackIfTransaction /\
  createError errText = ("Could not create table to import to: " ++ errText)%string /\
  tableCreated (runFrom store) = false /\
  occurrences isPoll (trace (runFrom store)) = 0%nat /\
  occurrences isStatement (trace (runFrom store)) = 2%nat /\
  outcome (trace (runFrom store)) = Some false /\
  db (runFrom store) = mkDb store None.
Proof.
  intros Ht.
  split; [exact (proj1 (Suffixes_spec _ _) (run_exec_failed store) _ _ _ Ht)|].
  split; [apply createError_text|].
  apply run_after_exec_failed. rewrite Ht, existsb_app. cbn. apply orb_true_r.
Qed.

(** X13.  A run gives at most one statement to [exec]: the CREATE TABLE
    built from the names and declared types of the plugin's columns, in
    their order, with the flag NO_LOCK when the run has no transaction and
    no flag otherwise, and only when the table has no column.
    [tableCreated] is set exactly in the runs where that statement
    succeeded. *)
Theorem table_is_created_from_plugin_columns (store : Store) :
  let s := runFrom store in
  let names := map fst (getColumns plugin) in
  let types := map snd (getColumns plugin) in
  (forall sql flags err, In (EvExec sql flags err) (trace s) ->
     sql = createSql names types /\ flags = createFlags /\
     err = exec_error engine sql /\ st_columns store = []) /\
  createSql names types
  = ("CREATE TABLE " ++ wrapObjIfNeeded table (getDialect engine) ++ " ("
     ++ join ", " (colDefs names types (getDialect engine)) ++ ")")%string /\
  (occurrences isExec (trace s) <= 1)%nat /\
  (tableCreated s = true <-> exists sql flags, In (EvExec sql flags None) (trace s)).
Proof.
  cbv zeta. split; [|split; [apply createSql_text|]].
  - intros sql flags err Hin. apply in_split in Hin as (pre & post & Ht).
    exact (proj1 (Suffixes_spec _ _) (run_create_statement store) _ _ _ Ht).
  - destruct (run_created store) as [Hle Hc]. split; [exact Hle|].
    rewrite <- Hc. rewrite existsb_exists. split.
    + intros (e & Hin & He). destruct e as [| | | |sql flags [|]| | | | | | | | | | | |];
        try discriminate He. eauto.
    + intros (sql & flags & Hin). eexists. split; [exact Hin|reflexivity].
Qed.

(** *** Interrupted before the first row *)

Definition isImportCall (e : Event) : bool :=
  match e with EvPrepare _ _ | EvNext _ | EvExecute _ _ => true | _ => false end.

Lemma run_interrupted_at_once (store : Store) :
  interruptedAt 0 = true ->
  let s := runFrom store in
  outcome (trace s) = Some false /\
  occurrences isImportCall (trace s) = 0%nat /\
  db s = mkDb (if skipTransaction config
               then if tableCreated s then createTable (columnsFromPlugin s) store else store
               else store) None.
Proof.
  intros Hint. cbv zeta. run_cases; try congruence.
  all: repeat split.
Qed.

(** X10.  When the first read of the interruption flag finds it set (the
    import was interrupted before the reconciliation was over), the run
    fails without preparing the INSERT, reading a row or executing
    anything.  In a transaction the database is left as it was; without
    one, a table the run has just created stays, empty. *)
Theorem interrupted_before_the_first_row (store : Store) :
  interruptedAt 0 = true ->
  let s := runFrom store in
  outcome (trace s) = Some false /\
  (forall e, In e (trace s) -> isImportCall e = false) /\
  db s = mkDb (if skipTransaction config
               then if tableCreated s then mkStore (columnsFromPlugin s) [] else store
               else store) None.
Proof.
  intros Hint. cbv zeta.
  destruct (run_interrupted_at_once store Hint) as (Ho & Hn & Hdb).
  split; [exact Ho|]. split; [exact (absent_In _ _ Hn)|exact Hdb].
Qed.

(** *** When [prepareTable] fails *)

Lemma suffix_after (t l suf : list Event) :
  (exists pre, l = pre ++ suf) -> exists pre, t ++ l = t ++ pre ++ suf.
Proof. intros [pre ->]. now exists pre. Qed.

(** X6.  [prepareTable] returns true exactly when the table exists or its
    CREATE TABLE is accepted, and the interruption flag is then read unset.
    When it returns false it has gone through [error] once (notification,
    [afterImport], [finished(false)]) and has left [targetColumns] as it
    was.  A refused CREATE TABLE returns before the flag is read and leaves
    [tableCreated] and the database untouched; an interruption comes after
    the table has been created, so that [tableCreated] is then already set
    although the preparation fails. *)
Theorem prepareTable_fails (s : State) :
  let D := st_columns (view (db s)) in
  let sql := createSql (columnsFromPlugin s) (columnTypesFromPlugin s) in
  let r := prepareTable s in
  (fst r = true <->
   (D <> [] \/ exec_error engine sql = None) /\ interruptedAt (polls s) = false) /\
  (fst r = false ->
   targetColumns (snd r) = targetColumns s /\
   exists msg pre,
     trace (snd r) = trace s ++ pre ++ [EvNotifyError msg; EvAfterImport; EvFinished false]) /\
  (D = [] -> forall errText, exec_error engine sql = Some errText ->
   polls (snd r) = polls s /\ tableCreated (snd r) = tableCreated s /\
   db (snd r) = db s /\
   trace (snd r)
   = trace s ++ [EvGetTableColumns []; EvExec sql createFlags (Some errText);
                 EvNotifyError (createError errText); EvAfterImport; EvFinished false]) /\
  (interruptedAt (polls s) = true -> D <> [] \/ exec_error engine sql = None ->
   polls (snd r) = S (polls s) /\
   (D = [] -> tableCreated (snd r) = true /\
              view (db (snd r)) = mkStore (columnsFromPlugin s) []) /\
   (D <> [] -> tableCreated (snd r) = tableCreated s /\ db (snd r) = db s) /\
   exists pre,
     trace (snd r)
     = trace s ++ pre ++ [EvIsInterrupted true; EvNotifyError interruptedError;
                          EvAfterImport; EvFinished false]).
Proof.
  cbv zeta. unfold createSql, createFlags, createError.
  destruct s as [cp ct tc tg cr [[dc dr] [[pc pr]|]] po tr0]; exec;
    repeat (branch_run; exec; cbn [fst snd]; exec).
  all: repeat match goal with
       | H : (0 <? length ?l)%nat = true |- _ =>
           destruct l; [discriminate H|]; clear H
       | H : (0 <? length ?l)%nat = false |- _ =>
           destruct l; [clear H|discriminate H]
       end.
  all: rewrite <- ?app_assoc; cbn [app].
  all: split; [|split; [|split]].
  all: try solve [split;
                  [ intros H; first
                      [ discriminate H
                      | split; [first [left; discriminate | right; reflexivity]
                               |reflexivity] ]
                  | intros [[H|H] H']; first
                      [ reflexivity | discriminate H | discriminate H'
                      | exfalso; apply H; reflexivity ] ]].
  all: try solve [intros H; first
                    [ discriminate H
                    | split; [reflexivity|];
                      eexists; apply suffix_after; has_suffix ]].
  all: try solve [intros HD errText He; first
                    [ discriminate HD | discriminate He
                    | injection He as <-; repeat split ]].
  all: try solve [intros Hi Hc; first
                    [ discriminate Hi
                    | destruct Hc as [Hc|Hc];
                      [exfalso; apply Hc; reflexivity|discriminate Hc]
                    | split; [reflexivity|];
                      split; [intros HD; first [discriminate HD | split; reflexivity]|];
                      split; [intros HD; first [exfalso; apply HD; reflexivity
                                               | split; reflexivity]|];
                      apply suffix_after; has_suffix ]].
Qed.

(** *** A run that stops at the first failure, and succeeds *)

Lemma run_strict_success (store : Store) :
  ignoreErrors config = false ->
  outcome (trace (runFrom store)) = Some true ->
  inserted (trace (runFrom store)) = attempted (trace (runFrom store)) /\
  warnings (trace (runFrom store))
  = schemaWarnings (st_columns store) (columnsFromPlugin (runFrom store)).
Proof.
  intros Hig. unfold schemaWarnings. run_more; try discriminate.
  all: norm_trace; intros Hout; try discriminate Hout.
  all: specialize (HMi Hig eq_refl); specialize (HMw Hig);
       unfold inserted, attempted, warnings in *;
       rewrite ?flat_map_app; cbn [flat_map app];
       rewrite ?flat_map_app; cbn [flat_map app];
       rewrite HMi, HMw, ?app_nil_r; split; reflexivity.
Qed.

Lemma inserted_cons (e : Event) (t : list Event) :
  inserted (e :: t)
  = match e with EvExecute args None => [args] | _ => [] end ++ inserted t.
Proof. reflexivity. Qed.

Lemma inserted_attempted (t : list Event) :
  (length (inserted t) <= length (attempted t))%nat.
Proof.
  induction t as [|e t IH]; [apply Nat.le_refl|].
  rewrite inserted_cons, attempted_cons, !length_app.
  destruct e as [| | | | | | |args [errText|]| | | | | | | | |]; cbn [length]; lia.
Qed.

Lemma all_accepted (t : list Event) :
  inserted t = attempted t ->
  forall args err, In (EvExecute args err) t -> err = None.
Proof.
  induction t as [|e t IH]; intros H args err Hin; [destruct Hin|].
  rewrite inserted_cons, attempted_cons in H.
  pose proof (inserted_attempted t) as Hle.
  destruct Hin as [->|Hin].
  - destruct err as [errText|]; [|reflexivity].
    apply (f_equal (@length Row)) in H. cbn [app length] in H. lia.
  - apply (IH) with (args := args); [|exact Hin].
    destruct e as [| | | | | | |args' [errText|]| | | | | | | | |]; cbn [app] in H;
      try exact H.
    + apply (f_equal (@length Row)) in H. cbn [app length] in H. lia.
    + now injection H.
Qed.

(** X14.  With [ignoreErrors] false, a run that signals success has lost no
    row: every execution was accepted, and the rows the run has added to the
    table are exactly the values bound for the rows of the plugin that come
    before its first empty row, all of them, in order.  No warning was given
    but the one of the reconciliation. *)
Theorem strict_success_is_complete (store : Store) :
  ignoreErrors config = false ->
  outcome (trace (runFrom store)) = Some true ->
  let s := runFrom store in
  let expected := map (fun row => boundArgs row (length (targetColumns s)))
                      (untilEmpty (rows plugin)) in
  inserted (trace s) = expected /\
  (forall args err, In (EvExecute args err) (trace s) -> err = None) /\
  db s = mkDb (written store s) None /\
  st_rows (durable (db s)) = (if tableCreated s then [] else st_rows store) ++ expected /\
  warnings (trace s) = schemaWarnings (st_columns store) (columnsFromPlugin s).
Proof.
  intros Hig Hout. cbv zeta.
  destruct (run_strict_success store Hig Hout) as [Hi Hw].
  destruct (run_attempts store) as (Ha & _ & Hx).
  assert (Hins : inserted (trace (runFrom store))
                 = map (fun row => boundArgs row (length (targetColumns (runFrom store))))
                       (untilEmpty (rows plugin))).
  { rewrite Hi, Ha, (Hx Hout), firstn_all. reflexivity. }
  pose proof (run_db store) as Hdb. rewrite Hout in Hdb.
  assert (Hdb' : db (runFrom store) = mkDb (written store (runFrom store)) None)
    by (destruct (skipTransaction config); exact Hdb).
  split; [exact Hins|]. split; [exact (all_accepted _ Hi)|].
  split; [exact Hdb'|]. split; [|exact Hw].
  rewrite Hdb'. cbn [durable]. unfold written.
  rewrite st_rows_addRows, Hins.
  now destruct (tableCreated (runFrom store)).
Qed.

(** *** The INSERT statement *)

Definition isPrepare (e : Event) : bool :=
  match e with EvPrepare _ _ => true | _ => false end.

Lemma loopEvent_not_prepare e : loopEvent e = true -> isPrepare e = false.
Proof. destruct e; cbn; congruence. Qed.

(** No row is read or executed before the statement is prepared. *)
Fixpoint preparedFirst (t : list Event) : bool :=
  match t with
  | [] => true
  | e :: rest =>
      if isPrepare e then true
      else if isImportCall e then false
      else preparedFirst rest
  end.

Lemma run_preparedFirst (store : Store) : preparedFirst (trace (runFrom store)) = true.
Proof.
  run_cases; try discriminate.
  all: rewrite <- ?app_assoc; cbn [app preparedFirst isPrepare isImportCall]; reflexivity.
Qed.

Lemma preparedFirst_spec (t : list Event) :
  preparedFirst t = true ->
  forall pre e post, t = pre ++ e :: post ->
  isImportCall e = true -> isPrepare e = false ->
  exists sql flags, In (EvPrepare sql flags) pre.
Proof.
  intros H pre. revert t H.
  induction pre as [|x pre IH]; intros t H e post -> Hi Hp; cbn [app preparedFirst] in H.
  - rewrite Hp, Hi in H. discriminate H.
  - destruct (isPrepare x) eqn:Hx.
    + destruct x; try discriminate Hx. exists sql, flags. left. reflexivity.
    + destruct (isImportCall x); [discriminate H|].
      destruct (IH _ H e post eq_refl Hi Hp) as (sql & flags & Hin).
      exists sql, flags. right. exact Hin.
Qed.

Definition insertFlags : list Flag := [SKIP_DROP_DETECTION; SKIP_PARAM_COUNTING; NO_LOCK].

Definition PreparedWith (colCount : nat) (e : Event) (post : list Event) : Prop :=
  match e with
  | EvPrepare sql flags => sql = insertSql colCount /\ flags = insertFlags
  | _ => True
  end.

Lemma run_prepared_with (store : Store) :
  Suffixes (PreparedWith (length (targetColumns (runFrom store)))) (trace (runFrom store)).
Proof.
  unfold PreparedWith, insertSql, insertFlags.
  run_cases; try discriminate.
  all: trace_suffixes ltac:(apply (loop_suffixes (fun e _ => loopEvent e = true)); [auto|exact HL]).
  all: try (split; reflexivity).
  all: intros [] post; cbn; auto; discriminate.
Qed.

Lemma run_prepare_count (store : Store) :
  (occurrences isPrepare (trace (runFrom store)) <= 1)%nat /\
  (outcome (trace (runFrom store)) = Some true ->
   occurrences isPrepare (trace (runFrom store)) = 1%nat).
Proof.
  run_cases; try discriminate.
  all: norm_trace; rewrite ?occurrences_cons; norm_trace;
       rewrite ?(loop_silent isPrepare _ loopEvent_not_prepare HL);
       cbn [isPrepare occurrences filter length Nat.add];
       split; [lia|]; intros Hout; first [discriminate Hout | reflexivity].
Qed.

Transparent arg.

Lemma insertSql_text (colCount : nat) :
  insertSql colCount
  = ("INSERT INTO " ++ wrapObjIfNeeded table (getDialect engine) ++ " VALUES ("
     ++ join ", " (repeat "?" colCount) ++ ")")%string.
Proof.
  unfold insertSql, insertTemplate.
  generalize (join ", " (repeat "?"%string colCount)).
  generalize (wrapObjIfNeeded table (getDialect engine)).
  intros a b. cbv -[append]. reflexivity.
Qed.

Opaque arg.

(** X15.  A run prepares at most one statement, and exactly one when it
    signals success: the INSERT, before any row is read or executed, with
    the flags SKIP_DROP_DETECTION, SKIP_PARAM_COUNTING and NO_LOCK.  Its text
    names the table and has one placeholder per reconciled column; it names
    no column, so that the values are bound to the columns of the table by
    position. *)
Theorem insert_is_prepared_once (store : Store) :
  let s := runFrom store in
  let t := trace s in
  (occurrences isPrepare t <= 1)%nat /\
  (outcome t = Some true -> occurrences isPrepare t = 1%nat) /\
  (forall sql flags, In (EvPrepare sql flags) t ->
     sql = ("INSERT INTO " ++ wrapObjIfNeeded table (getDialect engine) ++ " VALUES ("
            ++ join ", " (repeat "?" (length (targetColumns s))) ++ ")")%string /\
     flags = [SKIP_DROP_DETECTION; SKIP_PARAM_COUNTING; NO_LOCK]) /\
  (forall pre e post, t = pre ++ e :: post ->
     isImportCall e = true -> isPrepare e = false ->
     exists sql flags, In (EvPrepare sql flags) pre).
Proof.
  cbv zeta. destruct (run_prepare_count store) as [Hle Hone].
  split; [exact Hle|]. split; [exact Hone|]. split.
  - intros sql flags Hin. apply in_split in Hin as (pre & post & Ht).
    rewrite <- insertSql_text.
    exact (proj1 (Suffixes_spec _ _) (run_prepared_with store) _ _ _ Ht).
  - apply preparedFirst_spec, run_preparedFirst.
Qed.

(** *** The reconciliation against a table that exists *)

Definition isGetTableColumns (e : Event) : bool :=
  match e with EvGetTableColumns _ => true | _ => false end.

Lemma loopEvent_not_getTableColumns e :
  loopEvent e = true -> isGetTableColumns e = false.
Proof. destruct e; cbn; congruence. Qed.

(** The INSERT columns [prepareTable] derives from the columns of a table
    that exists and the number of columns of the plugin. *)
Definition reconciledColumns (store : Store) : list string :=
  wrapObjNamesIfNeeded (firstn (length (getColumns plugin)) (st_columns store))
                       (getDialect engine).

Lemma run_reconciles_existing (store : Store) :
  st_columns store <> [] ->
  beforeImport plugin = true -> getColumns plugin <> [] ->
  (skipTransaction config = true \/ begin_error engine = None) ->
  occurrences isGetTableColumns (trace (runFrom store)) = 1%nat /\
  In (EvGetTableColumns (st_columns store)) (trace (runFrom store)) /\
  tableColumns (runFrom store) = st_columns store /\
  (interruptedAt 0 = false ->
   targetColumns (runFrom store) = reconciledColumns store).
Proof.
  intros Hst Hb Hc Hbegin. unfold reconciledColumns.
  rewrite <- (length_map fst (getColumns plugin)).
  destruct (getColumns plugin) as [|cd cds] eqn:Hcols; [congruence|].
  unfold runFrom, run, snd; exec.
  repeat (first
    [ rewrite Hb | rewrite Hcols
    | progress cbn [length map Nat.eqb]
    | branch_with branch_loop ];
    exec).
  all: try match goal with
            | H : false = true |- _ => discriminate H
            | H : true = false |- _ => discriminate H
            end.
  all: try solve [destruct Hbegin as [Hx|Hx]; discriminate Hx].
  all: try match goal with
           | E : (0 <? length ?l)%nat = false |- _ =>
               exfalso; apply Hst; apply length_zero_iff_nil;
               apply Nat.ltb_ge in E; cbn [st_columns] in *; lia
           end.
  all: norm_trace; rewrite ?occurrences_cons; norm_trace;
       rewrite ?(loop_silent isGetTableColumns _ loopEvent_not_getTableColumns HL);
       cbn [isGetTableColumns occurrences filter length Nat.add st_columns].
  all: split; [reflexivity|]; split; [find_in|]; split; [reflexivity|].
  all: intros Hint; try (rewrite Hint in *; discriminate).
  all: unfold mid; cbn [skipn];
       repeat match goal with
              | H : (_ <? _)%nat = true |- _ => apply Nat.ltb_lt in H
              | H : (_ <? _)%nat = false |- _ => apply Nat.ltb_ge in H
              end;
       cbn [length] in *;
       try reflexivity; rewrite firstn_all2 by (cbn [length]; lia); reflexivity.
Qed.

End Worker.

(** ** Runs compared, and concrete runs *)

(** The symbolic execution again, for statements about several runs. *)
Ltac exec_run :=
  cbv beta iota zeta delta
    [run runFrom prepareTable importData importRow
     error notifyError notifyWarn notifyInfo
     plugin_afterImport emit_finished emit_createdTable plugin_beforeImport
     plugin_getColumns db_begin db_commit db_rollback db_prepare db_exec
     query_execute resolver_getTableColumns isInterrupted emit modify gets bind ret
     set_db set_pluginColumns set_tableColumns set_targetColumns
     set_tableCreated set_polls initial
     columnsFromPlugin columnTypesFromPlugin tableColumns targetColumns
     tableCreated db polls trace negb
     view update durable pending createTable st_columns st_rows
     beforeImport getColumns rows] in *;
  cbn [app] in *.

Ltac branch_both :=
  let E := fresh "E" in
  match goal with
  | |- context [readPluginColumns ?p ?s] => rewrite (readPluginColumns_eq p s)
  | |- context [importRows _ _ _ _ _ (_ ++ [] :: _) _] =>
      rewrite importRows_stops_at_empty
  | |- context [match ?x with _ => _ end] =>
      lazymatch x with
      | context [match _ with _ => _ end] => fail
      | _ => destruct x eqn:E; try rewrite E in *
      end
  end.

(** C9.  A run whose plugin returns an empty row is the run whose plugin
    has nothing more to return at that point: the rows after the empty one
    are never read.  In any run, once [next()] has returned an empty row
    nothing follows but the events of the commit phase (no execution, no
    warning, no error unless the commit itself fails), and the run signals
    success when the commit succeeds or there is no transaction. *)
Theorem empty_row_ends_the_stream
        (wrapObjIfNeeded : string -> Dialect -> string)
        (ready : bool) (columns : list (string * string)) (before after : list Row)
        (config : StandardImportConfig) (engine : DbEngine) (table : string)
        (interruptedAt : nat -> bool) (store : Store) :
  runFrom wrapObjIfNeeded (mkPlugin ready columns (before ++ [] :: after))
          config engine table interruptedAt store
  = runFrom wrapObjIfNeeded (mkPlugin ready columns before)
            config engine table interruptedAt store
  /\
  (forall plugin,
     let s := runFrom wrapObjIfNeeded plugin config engine table interruptedAt store in
     forall pre post, trace s = pre ++ EvNext [] :: post ->
       post = commitPhase config engine table (tableCreated s) /\
       (skipTransaction config = true \/ commit_error engine = None ->
        outcome (trace s) = Some true)).
Proof.
  split.
  - unfold runFrom, run, snd; exec_run.
    repeat (branch_both; exec_run); reflexivity.
  - intros plugin s pre post Ht. subst s.
    pose proof (run_after_empty_row _ _ _ _ _ _ _ _ _ Ht) as Hpost.
    split; [exact Hpost|].
    intros Hcommit. rewrite Ht, Hpost. unfold outcome, commitPhase.
    rewrite fold_left_app. cbn [fold_left signal].
    destruct (skipTransaction config).
    + rewrite fold_left_app. reflexivity.
    + destruct Hcommit as [H|H]; [discriminate H|]. rewrite H.
      cbn [fold_left signal]. rewrite fold_left_app. reflexivity.
Qed.

(** C8.  In a run, [createdTable] is emitted exactly when the run signals
    success and has created the table, and then it is followed by
    [afterImport] and [finished(true)] only: it comes before the success
    signal.  Against a table that exists (it has columns), a run creates
    nothing: [tableCreated] stays false, no statement is given to [exec], no
    [createdTable] is emitted, the columns it reconciles against are those
    of the existing table, and the table keeps them; so a second run, on the
    database the first one left, with any plugin, options and engine, finds
    the same table and does the same. *)
Theorem created_table_is_notified_once
        (wrapObjIfNeeded : string -> Dialect -> string)
        (plugin1 plugin2 : ImportPlugin) (config1 config2 : StandardImportConfig)
        (engine1 engine2 : DbEngine) (table : string)
        (interruptedAt1 interruptedAt2 : nat -> bool) (store : Store) :
  let s1 := runFrom wrapObjIfNeeded plugin1 config1 engine1 table interruptedAt1 store in
  let s2 := runFrom wrapObjIfNeeded plugin2 config2 engine2 table interruptedAt2
                    (durable (db s1)) in
  (In (EvCreatedTable table) (trace s1) <->
   outcome (trace s1) = Some true /\ tableCreated s1 = true) /\
  (forall pre tbl post, trace s1 = pre ++ EvCreatedTable tbl :: post ->
     tbl = table /\ post = [EvAfterImport; EvFinished true]) /\
  (st_columns store <> [] ->
     (tableCreated s1 = false /\ tableCreated s2 = false) /\
     (forall sql flags err, ~ In (EvExec sql flags err) (trace s1) /\
                            ~ In (EvExec sql flags err) (trace s2)) /\
     (forall tbl, ~ In (EvCreatedTable tbl) (trace s1) /\
                  ~ In (EvCreatedTable tbl) (trace s2)) /\
     (forall cols, (In (EvGetTableColumns cols) (trace s1) -> cols = st_columns store) /\
                   (In (EvGetTableColumns cols) (trace s2) -> cols = st_columns store)) /\
     st_columns (durable (db s1)) = st_columns store /\
     st_columns (durable (db s2)) = st_columns store /\
     (beforeImport plugin1 = true -> getColumns plugin1 <> [] ->
      skipTransaction config1 = true \/ begin_error engine1 = None ->
      occurrences isGetTableColumns (trace s1) = 1%nat /\
      In (EvGetTableColumns (st_columns store)) (trace s1) /\
      tableColumns s1 = st_columns store /\
      (interruptedAt1 0 = false ->
       targetColumns s1
       = wrapObjNamesIfNeeded wrapObjIfNeeded
           (firstn (length (getColumns plugin1)) (st_columns store))
           (getDialect engine1) /\
       length (targetColumns s1)
       = Nat.min (length (st_columns store)) (length (getColumns plugin1)))) /\
     (beforeImport plugin2 = true -> getColumns plugin2 <> [] ->
      skipTransaction config2 = true \/ begin_error engine2 = None ->
      occurrences isGetTableColumns (trace s2) = 1%nat /\
      In (EvGetTableColumns (st_columns store)) (trace s2) /\
      tableColumns s2 = st_columns store /\
      (interruptedAt2 0 = false ->
       targetColumns s2
       = wrapObjNamesIfNeeded wrapObjIfNeeded
           (firstn (length (getColumns plugin2)) (st_columns store))
           (getDialect engine2) /\
       length (targetColumns s2)
       = Nat.min (length (st_columns store)) (length (getColumns plugin2))))).
Proof.
  cbv zeta.
  set (s1 := runFrom wrapObjIfNeeded plugin1 config1 engine1 table interruptedAt1 store).
  split; [|split].
  - pose proof (run_createdTable wrapObjIfNeeded plugin1 config1 engine1 table
                                interruptedAt1 store) as Hc.
    fold s1 in Hc. rewrite <- Hc. split.
    + intros Hin. apply existsb_exists. eauto.
    + intros H. apply existsb_exists in H as (e & Hin & He).
      apply in_split in Hin as (pre & post & Ht).
      destruct e; try discriminate He.
      pose proof (proj1 (Suffixes_spec _ _) (run_createdTable_last _ _ _ _ _ _ store) _ _ _ Ht)
        as [-> _].
      fold s1. rewrite Ht. apply in_or_app. right. left. reflexivity.
  - intros pre tbl post Ht.
    exact (proj1 (Suffixes_spec _ _) (run_createdTable_last _ _ _ _ _ _ store) _ _ _ Ht).
  - intros Hst.
    destruct (run_existing wrapObjIfNeeded plugin1 config1 engine1 table interruptedAt1
                           store Hst) as (C1 & X1 & T1 & G1).
    fold s1 in C1, X1, T1, G1.
    pose proof (run_keeps_columns _ _ _ _ _ _ store C1) as K1. fold s1 in K1.
    assert (Hst2 : st_columns (durable (db s1)) <> []) by now rewrite K1.
    destruct (run_existing wrapObjIfNeeded plugin2 config2 engine2 table interruptedAt2
                           (durable (db s1)) Hst2) as (C2 & X2 & T2 & G2).
    pose proof (run_keeps_columns _ _ _ _ _ _ _ C2) as K2.
    split; [auto|]. split; [|split; [|split; [|split]]].
    + intros sql flags err. split; intros Hin.
      * assert (H : existsb isExec (trace s1) = true)
          by (apply existsb_exists; eexists; split; [exact Hin|reflexivity]).
        congruence.
      * assert (H : existsb isExec
                      (trace (runFrom wrapObjIfNeeded plugin2 config2 engine2 table
                                      interruptedAt2 (durable (db s1)))) = true)
          by (apply existsb_exists; eexists; split; [exact Hin|reflexivity]).
        congruence.
    + intros tbl. split; intros Hin.
      * assert (H : existsb isCreatedTable (trace s1) = true)
          by (apply existsb_exists; eexists; split; [exact Hin|reflexivity]).
        congruence.
      * assert (H : existsb isCreatedTable
                      (trace (runFrom wrapObjIfNeeded plugin2 config2 engine2 table
                                      interruptedAt2 (durable (db s1)))) = true)
          by (apply existsb_exists; eexists; split; [exact Hin|reflexivity]).
        congruence.
    + intros cols. split; intros Hin; apply in_split in Hin as (pre & post & Ht).
      * exact (proj1 (Suffixes_spec _ _) G1 _ _ _ Ht).
      * rewrite <- K1. exact (proj1 (Suffixes_spec _ _) G2 _ _ _ Ht).
    + exact K1.
    + split; [now rewrite K2|]. split.
      * intros Hb Hc Hbegin.
        destruct (run_reconciles_existing wrapObjIfNeeded plugin1 config1 engine1 table
                                          interruptedAt1 store Hst Hb Hc Hbegin)
          as (N & I & T & G).
        fold s1 in N, I, T, G.
        split; [exact N|]. split; [exact I|]. split; [exact T|].
        intros Hint. specialize (G Hint). unfold reconciledColumns in G.
        split; [exact G|].
        rewrite G. unfold wrapObjNamesIfNeeded.
        rewrite length_map, length_firstn. apply Nat.min_comm.
      * intros Hb Hc Hbegin.
        destruct (run_reconciles_existing wrapObjIfNeeded plugin2 config2 engine2 table
                                          interruptedAt2 (durable (db s1)) Hst2 Hb Hc Hbegin)
          as (N & I & T & G).
        rewrite K1 in I, T.
        split; [exact N|]. split; [exact I|]. split; [exact T|].
        intros Hint. specialize (G Hint). unfold reconciledColumns in G.
        rewrite K1 in G.
        split; [exact G|].
        rewrite G. unfold wrapObjNamesIfNeeded.
        rewrite length_map, length_firstn. apply Nat.min_comm.
Qed.

(** ** Sample runs *)

(** Modelled from the spec: a quoting function for the sample runs, which
    puts a name between brackets when it holds a space. *)
Definition sampleWrap (name : string) (dialect : Dialect) : string :=
  if existsb isSpace (list_ascii_of_string name)
  then ("[" ++ name ++ "]")%string else name.

Definition sampleColumns : list (string * string) :=
  [("id", "INTEGER"); ("full name", "TEXT")]%string.

Definition sampleRows : list Row :=
  [[QVariant_LongLong 1; QVariant_String "Ann"];
   [QVariant_LongLong 1];
   [QVariant_LongLong 3; QVariant_String "Cy"; QVariant_String "spare"]].

Definition samplePlugin : ImportPlugin := mkPlugin true sampleColumns sampleRows.

(** An engine that refuses the second execution and nothing else. *)
Definition sampleEngine : DbEngine :=
  mkEngine Sqlite3 None (fun _ => None)
           (fun k _ => if (k =? 1)%nat then Some "UNIQUE constraint failed"%string else None)
           None.

Definition emptyStore : Store := mkStore [] [].

(** Nobody interrupts. *)
Definition never (k : nat) : bool := false.

(** [interrupt()] is called between the first and the second read. *)
Definition afterFirstPoll (k : nat) : bool := (k =? 1)%nat.

(** The state of a run in a transaction when it calls [prepareTable]. *)
Definition sampleState : State :=
  mkState ["id"; "full name"]%string ["INTEGER"; "TEXT"]%string [] [] false
          (mkDb emptyStore (Some emptyStore)) 0
          [EvBeforeImport true; EvGetColumns; EvBegin true].

Abbreviation strictRun :=
  (runFrom sampleWrap samplePlugin (mkConfig false false) sampleEngine "people" never
          emptyStore).

Abbreviation lenientRun :=
  (runFrom sampleWrap samplePlugin (mkConfig false true) sampleEngine "people" never
          emptyStore).

Abbreviation interruptedRun :=
  (runFrom sampleWrap samplePlugin (mkConfig false false) sampleEngine "people"
          afterFirstPoll emptyStore).

Abbreviation refusedRun :=
  (runFrom sampleWrap (mkPlugin false sampleColumns sampleRows) (mkConfig false false)
          sampleEngine "people" never emptyStore).

(** A run whose plugin refuses to start emits [finished(false)] and returns:
    [afterImport] is not called. *)
Lemma refused_run_skips_afterImport :
  trace refusedRun = [EvBeforeImport false; EvFinished false] /\
  occurrences isFinished (trace refusedRun) = 1%nat /\
  occurrences isAfterImport (trace refusedRun) <> 1%nat.
Proof.
  split; [vm_compute; reflexivity|].
  split; [vm_compute; reflexivity|].
  vm_compute. discriminate.
Qed.

Lemma prepareTable_reconciles_witness :
  let s' := snd (prepareTable sampleWrap (mkConfig false false) sampleEngine "people"
                              never sampleState) in
  tableCreated s' = true /\
  view (db s') = mkStore ["id"; "full name"]%string [] /\
  targetColumns s' = ["id"; "[full name]"]%string.
Proof.
  cbv zeta.
  assert (H : prepareTable sampleWrap (mkConfig false false) sampleEngine "people"
                           never sampleState
              = (true, snd (prepareTable sampleWrap (mkConfig false false) sampleEngine
                                         "people" never sampleState)))
    by (vm_compute; reflexivity).
  destruct (prepareTable_reconciles _ _ _ _ _ _ _ H) as [Hnew _].
  destruct (Hnew eq_refl) as (Hc & Hv & Ht & _).
  split; [exact Hc|]. split; [exact Hv|]. exact Ht.
Defined.

Lemma transactional_run_is_atomic_witness :
  skipTransaction (mkConfig false false) = false /\
  (forall e, In e (trace strictRun) -> fatal (mkConfig false false) e = true ->
     exists t', trace strictRun = t' ++ [EvRollback]).
Proof.
  split; [reflexivity|].
  exact (proj1 (proj2 (transactional_run_is_atomic
                         sampleWrap samplePlugin (mkConfig false false) sampleEngine
                         "people" never emptyStore eq_refl))).
Defined.

Lemma failed_row_aborts_witness :
  outcome (trace strictRun) = Some false /\ db strictRun = mkDb emptyStore None.
Proof.
  assert (Ht : trace strictRun
               = [EvBeforeImport true; EvGetColumns; EvBegin true; EvGetTableColumns [];
                  EvExec "CREATE TABLE people (id INTEGER, [full name] TEXT)" [NONE] None;
                  EvIsInterrupted false;
                  EvPrepare "INSERT INTO people VALUES (?, ?)"
                            [SKIP_DROP_DETECTION; SKIP_PARAM_COUNTING; NO_LOCK];
                  EvNext [QVariant_LongLong 1; QVariant_String "Ann"];
                  EvExecute [QVariant_LongLong 1; QVariant_String "Ann"] None;
                  EvIsInterrupted false; EvNext [QVariant_LongLong 1]]
                 ++ EvExecute [QVariant_LongLong 1; QVariant_null QV_String]
                              (Some "UNIQUE constraint failed"%string)
                 :: [EvNotifyError "Error while importing data: UNIQUE constraint failed";
                     EvAfterImport; EvFinished false; EvRollback])
    by (vm_compute; reflexivity).
  destruct (failed_row_aborts sampleWrap samplePlugin (mkConfig false false) sampleEngine
                              "people" never emptyStore _ _ _ _ eq_refl Ht)
    as (_ & _ & _ & Ho & Hdb).
  split; [exact Ho|exact (Hdb eq_refl)].
Defined.

Lemma ignored_errors_become_warnings_witness :
  outcome (trace lenientRun) = Some true /\
  executions (trace lenientRun) = 3%nat.
Proof.
  assert (Hcols : getColumns samplePlugin <> []) by discriminate.
  assert (Hrows : Forall (fun row : Row => row <> []) (rows samplePlugin))
    by (repeat constructor; discriminate).
  destruct (ignored_errors_become_warnings
              sampleWrap samplePlugin (mkConfig false true) sampleEngine "people" never
              emptyStore eq_refl eq_refl Hcols (or_intror eq_refl)
              (or_intror (fun _ => eq_refl)) (or_intror eq_refl) (fun _ => eq_refl) Hrows)
    as (Ho & He & _).
  split; [exact Ho|exact He].
Defined.

Lemma polls_follow_rows_witness :
  executions (trace interruptedRun) = 1%nat /\
  outcome (trace interruptedRun) = Some false.
Proof.
  assert (Hcols : getColumns samplePlugin <> []) by discriminate.
  assert (Hrow : [QVariant_LongLong 1; QVariant_String "Ann"] <> []) by discriminate.
  destruct (proj2 (polls_follow_rows sampleWrap samplePlugin (mkConfig false false)
                                     sampleEngine "people" afterFirstPoll emptyStore)
                  _ _ eq_refl Hcols (or_intror eq_refl) (or_intror (fun _ => eq_refl))
                  eq_refl Hrow (or_intror (fun _ => eq_refl)) eq_refl eq_refl)
    as (He & Ho & _).
  split; [exact He|exact Ho].
Defined.

(** ** More sample runs *)

Definition silentPlugin : ImportPlugin := mkPlugin true [] sampleRows.

(** An engine that cannot begin a transaction. *)
Definition lockedEngine : DbEngine :=
  mkEngine Sqlite3 (Some "database is locked"%string) (fun _ => None) (fun _ _ => None)
           None.

(** An engine that refuses every statement given to [exec]. *)
Definition readOnlyEngine : DbEngine :=
  mkEngine Sqlite3 None (fun _ => Some "attempt to write a readonly database"%string)
           (fun _ _ => None) None.

(** [interrupt()] was called before the run read the flag. *)
Definition always (k : nat) : bool := true.

Abbreviation unguardedRun :=
  (runFrom sampleWrap samplePlugin (mkConfig true false) sampleEngine "people" never
           emptyStore).

Abbreviation stoppedRun :=
  (runFrom sampleWrap samplePlugin (mkConfig true false) sampleEngine "people" always
           emptyStore).

Abbreviation readOnlyRun :=
  (runFrom sampleWrap samplePlugin (mkConfig false false) readOnlyEngine "people" never
           emptyStore).

Lemma run_without_columns_witness :
  trace (runFrom sampleWrap silentPlugin (mkConfig false false) sampleEngine "people"
                 never emptyStore)
  = [EvBeforeImport true; EvGetColumns;
     EvNotifyError "No columns provided by the import plugin.";
     EvAfterImport; EvFinished false].
Proof.
  exact (proj1 (run_without_columns sampleWrap silentPlugin (mkConfig false false)
                                    sampleEngine "people" never emptyStore
                                    eq_refl eq_refl)).
Defined.

Lemma run_begin_failure_witness :
  trace (runFrom sampleWrap samplePlugin (mkConfig false false) lockedEngine "people"
                 never emptyStore)
  = [EvBeforeImport true; EvGetColumns; EvBegin false;
     EvNotifyError (beginError "database is locked"); EvAfterImport; EvFinished false].
Proof.
  assert (Hcols : getColumns samplePlugin <> []) by discriminate.
  exact (proj1 (run_begin_failure sampleWrap samplePlugin (mkConfig false false)
                                  lockedEngine "people" never emptyStore
                                  "database is locked" eq_refl Hcols eq_refl eq_refl)).
Defined.

Lemma refused_create_ends_run_witness :
  tableCreated readOnlyRun = false /\
  outcome (trace readOnlyRun) = Some false /\
  db readOnlyRun = mkDb emptyStore None.
Proof.
  assert (Ht : trace readOnlyRun
               = [EvBeforeImport true; EvGetColumns; EvBegin true; EvGetTableColumns []]
                 ++ EvExec "CREATE TABLE people (id INTEGER, [full name] TEXT)" [NONE]
                           (Some "attempt to write a readonly database"%string)
                 :: [EvNotifyError
                       "Could not create table to import to: attempt to write a readonly database";
                     EvAfterImport; EvFinished false; EvRollback])
    by (vm_compute; reflexivity).
  destruct (refused_create_ends_run sampleWrap samplePlugin (mkConfig false false)
                                    readOnlyEngine "people" never emptyStore _ _ _ _ _ Ht)
    as (_ & _ & Hc & _ & _ & Ho & Hdb).
  split; [exact Hc|]. split; [exact Ho|exact Hdb].
Defined.

Lemma run_without_transaction_witness :
  skipTransaction (mkConfig true false) = true /\
  (forall e, In e (trace unguardedRun) -> isTransactionCall e = false) /\
  db unguardedRun = mkDb (written emptyStore unguardedRun) None.
Proof.
  split; [reflexivity|].
  destruct (run_without_transaction sampleWrap samplePlugin (mkConfig true false)
                                    sampleEngine "people" never emptyStore eq_refl)
    as (Hn & Hdb & _).
  split; [exact Hn|exact Hdb].
Defined.

Lemma statements_run_inside_the_transaction_witness :
  skipTransaction (mkConfig false false) = false /\
  occurrences isBegun (trace strictRun)
  = (occurrences isCommitted (trace strictRun)
     + occurrences isRollback (trace strictRun))%nat.
Proof.
  split; [reflexivity|].
  exact (proj2 (proj2 (statements_run_inside_the_transaction
                         sampleWrap samplePlugin (mkConfig false false) sampleEngine
                         "people" never emptyStore eq_refl))).
Defined.

Lemma interrupted_before_the_first_row_witness :
  always 0 = true /\
  outcome (trace stoppedRun) = Some false /\
  (forall e, In e (trace stoppedRun) -> isImportCall e = false).
Proof.
  split; [reflexivity|].
  destruct (interrupted_before_the_first_row
              sampleWrap samplePlugin (mkConfig true false) sampleEngine "people" always
              emptyStore eq_refl) as (Ho & Hn & _).
  split; [exact Ho|exact Hn].
Defined.

(** An engine that accepts everything. *)
Definition acceptingEngine : DbEngine :=
  mkEngine Sqlite3 None (fun _ => None) (fun _ _ => None) None.

Abbreviation completeRun :=
  (runFrom sampleWrap samplePlugin (mkConfig false false) acceptingEngine "people" never
           emptyStore).

Lemma strict_success_is_complete_witness :
  outcome (trace completeRun) = Some true /\
  inserted (trace completeRun)
  = map (fun row => boundArgs row (length (targetColumns completeRun)))
        (untilEmpty sampleRows) /\
  (forall args err, In (EvExecute args err) (trace completeRun) -> err = None).
Proof.
  assert (Hout : outcome (trace completeRun) = Some true) by (vm_compute; reflexivity).
  split; [exact Hout|].
  destruct (strict_success_is_complete sampleWrap samplePlugin (mkConfig false false)
                                       acceptingEngine "people" never emptyStore
                                       eq_refl Hout) as (Hi & Ha & _).
  split; [exact Hi|exact Ha].
Defined.

(** ** A table that exists *)

Definition peopleStore : Store :=
  mkStore ["id"; "full name"]%string [[QVariant_LongLong 7; QVariant_String "Zed"]].

Abbreviation firstRun :=
  (runFrom sampleWrap samplePlugin (mkConfig false true) sampleEngine "people" never
           peopleStore).

Abbreviation secondRun :=
  (runFrom sampleWrap samplePlugin (mkConfig false false) acceptingEngine "people" never
           (durable (db firstRun))).

Lemma cancellation_is_polled_witness :
  In (EvIsInterrupted false) (trace strictRun) /\
  In (EvIsInterrupted false) (trace interruptedRun).
Proof.
  assert (Hcols : getColumns samplePlugin <> []) by discriminate.
  split.
  - destruct (proj1 (proj2 (cancellation_is_polled
                              sampleWrap samplePlugin (mkConfig false false) sampleEngine
                              "people" never emptyStore))
                    eq_refl Hcols (or_intror eq_refl) (or_intror eq_refl)) as [post Ht].
    rewrite Ht. apply in_or_app. right. apply in_or_app. right. left. reflexivity.
  - destruct (proj1 (proj2 (cancellation_is_polled
                              sampleWrap samplePlugin (mkConfig false false) sampleEngine
                              "people" afterFirstPoll emptyStore))
                    eq_refl Hcols (or_intror eq_refl) (or_intror eq_refl)) as [post Ht].
    rewrite Ht. apply in_or_app. right. apply in_or_app. right. left. reflexivity.
Defined.

Lemma created_table_is_notified_once_witness :
  st_columns peopleStore <> [] /\
  (tableCreated firstRun = false /\ tableCreated secondRun = false) /\
  In (EvGetTableColumns ["id"; "full name"]%string) (trace secondRun) /\
  length (targetColumns secondRun) = 2%nat.
Proof.
  assert (Hst : st_columns peopleStore <> []) by discriminate.
  assert (Hcols : getColumns samplePlugin <> []) by discriminate.
  split; [exact Hst|].
  destruct (proj2 (proj2 (created_table_is_notified_once
                            sampleWrap samplePlugin samplePlugin
                            (mkConfig false true) (mkConfig false false)
                            sampleEngine acceptingEngine "people" never never peopleStore))
                  Hst) as (Hc & _ & _ & _ & _ & _ & _ & H2).
  split; [exact Hc|].
  destruct (H2 eq_refl Hcols (or_intror eq_refl)) as (_ & Hin & _ & Ht).
  split; [exact Hin|]. exact (proj2 (Ht eq_refl)).
Defined.
